(** * Models of [app/models.py]: roles, users, tokens and comments

    A shallow embedding of the model layer of the site.  Python integers are
    [Z]; a nullable column is an [option]; a database table is a list of rows
    in primary-key order (roles) or a finite map keyed by the primary key
    (users); a method that mutates [self] returns the updated record; a
    method that can raise returns a [result]. *)

From Stdlib Require Import ZArith Lia Ascii String.
From stdpp Require Import base strings list gmap.

Local Open Scope Z_scope.

(** ** Outcomes of Python calls *)

(** The exceptions that the modelled methods can let escape. *)
Inductive exn : Type :=
  | AttributeError (msg : string)
  | KeyError (key : string)
  | TypeError.

(** A call either returns a value or raises. *)
Inductive result (A : Type) : Type :=
  | Returned (a : A)
  | Raised (e : exn).
Arguments Returned {A} a.
Arguments Raised {A} e.

(** [datetime.utcnow()] is read from the environment; the models below take
    the instant as an argument.  Instants are ordered integers. *)
Definition datetime : Type := Z.

(** ** [class Permission] *)

Module Permission.
Definition FOLLOW : Z := 1.
Definition COMMENT : Z := 2.
Definition WRITE : Z := 4.
Definition MODERATE : Z := 8.
Definition ADMIN : Z := 16.

(** The defined permissions, in the order of the class body. *)
Definition all : list Z := [FOLLOW; COMMENT; WRITE; MODERATE; ADMIN].
End Permission.

(** ** [class Role] *)

Module Role.

(** Columns of the [role] table.  The primary key is the position of the
    row in the table (see [insert_roles]); [Role.__init__] replaces a
    missing mask by [0], so the mask is an integer. *)
Record t : Type := Build {
  name : string;
  default : bool;
  permissions : Z;
}.

#[global] Instance t_eq_dec : EqDecision t.
Proof. solve_decision. Defined.

Definition set_permissions (self : t) (m : Z) : t :=
  Build (name self) (default self) m.

Definition set_default (self : t) (d : bool) : t :=
  Build (name self) d (permissions self).

(** [Role(name=r)]: the mask is set to [0] by [__init__]; [default] is
    not yet given and reads as false. *)
Definition init (r : string) : t := Build r false 0.

(** [self.permissions & perm == perm] *)
Definition has_permission (self : t) (perm : Z) : bool :=
  Z.land (permissions self) perm =? perm.

(** [if not self.has_permission(perm): self.permissions += perm] *)
Definition add_permission (self : t) (perm : Z) : t :=
  if negb (has_permission self perm)
  then set_permissions self (permissions self + perm)
  else self.

(** [if self.has_permission(perm): self.permissions -= perm] *)
Definition remove_permission (self : t) (perm : Z) : t :=
  if has_permission self perm
  then set_permissions self (permissions self - perm)
  else self.

Definition reset_permissions (self : t) : t := set_permissions self 0.

(** The [roles] dictionary of [insert_roles], in insertion order. *)
Definition roles : list (string * list Z) :=
  [ ("user", [Permission.FOLLOW; Permission.COMMENT]);
    ("moderator", [Permission.FOLLOW; Permission.COMMENT; Permission.MODERATE]);
    ("admin", [Permission.FOLLOW; Permission.COMMENT; Permission.WRITE;
               Permission.MODERATE; Permission.ADMIN]) ].

Definition default_role : string := "user".

(** [Role.query.filter_by(name=r).first()]: the first row with that name,
    together with its position. *)
Definition query_by_name (r : string) (table : list t) : option (nat * t) :=
  list_find (λ x, name x = r) table.

(** [Role.query.filter_by(default=True).first()] *)
Definition query_default (table : list t) : option (nat * t) :=
  list_find (λ x, default x = true) table.

(** One iteration of the loop of [insert_roles].  A role that was found is
    the row itself, so the changes are written back at its position; a new
    role is appended by [db.session.add]. *)
Definition seed_one (table : list t) (entry : string * list Z) : list t :=
  let '(r, perms) := entry in
  let found := query_by_name r table in
  let role := match found with Some (_, x) => x | None => init r end in
  let role := reset_permissions role in
  let role := foldl add_permission role perms in
  let role := set_default role (bool_decide (name role = default_role)) in
  match found with
  | Some (i, _) => <[i := role]> table
  | None => table ++ [role]
  end.

Definition insert_roles (table : list t) : list t :=
  foldl seed_one table roles.

(** The mask that a list of permission bits stands for. *)
Definition configured_mask (perms : list Z) : Z := foldr Z.lor 0 perms.

(** The row that the seeding is meant to leave for the entry [(r, perms)]. *)
Definition seeded (r : string) (perms : list Z) : t :=
  Build r (bool_decide (r = default_role)) (configured_mask perms).

End Role.

(** ** Configuration read through [current_app.config] *)

Record Config : Type := {
  SECRET_KEY : string;
  ADMIN_ADDRESS : option string;   (* [os.environ.get]: may be unset *)
}.

(** ** JSON payloads of tokens *)

(** Values that [json.loads] can produce (numbers are integers here: the
    payloads built in models.py only hold primary keys).  An object is
    the list of its members. *)
#[warnings="-register-all"]
Inductive json : Type :=
  | JNull
  | JBool (b : bool)
  | JInt (n : Z)
  | JStr (s : string)
  | JList (l : list json)
  | JDict (d : list (string * json)).

Fixpoint assoc (k : string) (d : list (string * json)) : option json :=
  match d with
  | [] => None
  | (k', v) :: d' => if bool_decide (k' = k) then Some v else assoc k d'
  end.

(** [data.get(k)]: only a dict has the method; a missing key gives [None]. *)
Definition dict_get (k : string) (data : json) : result json :=
  match data with
  | JDict d => Returned (from_option (λ v, v) JNull (assoc k d))
  | _ => Raised (AttributeError "get")
  end.

(** [data[k]]: a missing key raises [KeyError]; subscripting a value that is
    not a dict with a string raises [TypeError]. *)
Definition getitem (k : string) (data : json) : result json :=
  match data with
  | JDict d =>
      match assoc k d with
      | Some v => Returned v
      | None => Raised (KeyError k)
      end
  | _ => Raised TypeError
  end.

(** A primary key as it is written into a payload: [None] becomes [null]. *)
Definition json_of_id (i : option Z) : json := from_option JInt JNull i.

(** Python's [==] between a decoded JSON value and a primary key ([None] or
    an int); [True] and [False] compare equal to [1] and [0]. *)
Definition py_eq_id (v : json) (i : option Z) : bool :=
  match v, i with
  | JNull, None => true
  | JInt n, Some m => n =? m
  | JBool b, Some m => (if b then 1 else 0) =? m
  | _, _ => false
  end.

(** ** [itsdangerous.TimedJSONWebSignatureSerializer] *)

(** What [s.loads] does: return the payload, or raise [BadData] (bad
    signature, bad header, bad payload or expired signature, all of which
    are subclasses of [BadData]). *)
Inductive loaded : Type :=
  | Loaded (data : json)
  | BadData.

(** The serializer is a library outside the repository.  It is a parameter
    of the models: [token] is the type of the strings it handles,
    [dumps key expires_in now obj] signs [obj] at the instant [now] (seconds
    since the epoch), [loads key now tok] checks a token at the instant
    [now].  Its contract: a token that was issued with the same key loads to
    its payload until its expiry has passed, and is rejected afterwards.
    ([token.encode] and [.decode] only change the representation between
    [str] and [bytes]; they are the identity here.) *)
Class Serializer : Type := {
  token : Type;
  dumps : string → Z → Z → json → token;
  loads : string → Z → token → loaded;
  loads_dumps : ∀ key expires_in issued now obj,
    0 ≤ now →
    loads key now (dumps key expires_in issued obj)
    = if bool_decide (now ≤ issued + expires_in) then Loaded obj else BadData;
}.

(** ** [werkzeug.security] *)

(** [generate_password_hash] draws a random salt; the salt is an argument
    here. *)
Class PasswordHasher : Type := {
  generate_password_hash : string → string → string;
}.

(** ** [class User] *)

Module User.

(** Attributes of a [User] object: the mapped columns, the [role]
    relationship (in place of the [role_id] column), and [_last_seen], a
    plain attribute of the Python object that is not a column. *)
Record t : Type := Build {
  id : option Z;
  username : option string;
  email : option string;
  password_hash : option string;
  role : option Role.t;
  active : bool;
  name : option string;
  location : option string;
  about_me : option string;
  member_since : option datetime;
  last_seen : option datetime;
  _last_seen : option datetime;
}.

#[global] Instance t_eq_dec : EqDecision t.
Proof. solve_decision. Defined.

Definition set_id (self : t) (v : option Z) : t :=
  Build v (username self) (email self) (password_hash self) (role self)
    (active self) (name self) (location self) (about_me self)
    (member_since self) (last_seen self) (_last_seen self).

Definition set_password_hash (self : t) (v : option string) : t :=
  Build (id self) (username self) (email self) v (role self)
    (active self) (name self) (location self) (about_me self)
    (member_since self) (last_seen self) (_last_seen self).

Definition set_role (self : t) (v : option Role.t) : t :=
  Build (id self) (username self) (email self) (password_hash self) v
    (active self) (name self) (location self) (about_me self)
    (member_since self) (last_seen self) (_last_seen self).

Definition set_active (self : t) (v : bool) : t :=
  Build (id self) (username self) (email self) (password_hash self) (role self)
    v (name self) (location self) (about_me self)
    (member_since self) (last_seen self) (_last_seen self).

Definition set_member_since (self : t) (v : option datetime) : t :=
  Build (id self) (username self) (email self) (password_hash self) (role self)
    (active self) (name self) (location self) (about_me self)
    v (last_seen self) (_last_seen self).

Definition set_last_seen (self : t) (v : option datetime) : t :=
  Build (id self) (username self) (email self) (password_hash self) (role self)
    (active self) (name self) (location self) (about_me self)
    (member_since self) v (_last_seen self).

Definition set__last_seen (self : t) (v : option datetime) : t :=
  Build (id self) (username self) (email self) (password_hash self) (role self)
    (active self) (name self) (location self) (about_me self)
    (member_since self) (last_seen self) v.

(** The keyword arguments of the constructor.  [kw_password] goes through
    the [password] setter; [kw_salt] is the salt that the hasher draws. *)
Record kwargs : Type := {
  kw_username : option string;
  kw_email : option string;
  kw_password : option string;
  kw_salt : string;
  kw_role : option Role.t;
  kw_active : option bool;
}.

(** [password.setter]: [self.password_hash = generate_password_hash(password)] *)
Definition password_set `{PasswordHasher}
    (self : t) (password salt : string) : t :=
  set_password_hash self (Some (generate_password_hash password salt)).

(** The [password] property: [raise AttributeError("Password is not stored.")] *)
Definition password (self : t) : result string :=
  Raised (AttributeError "Password is not stored.").

(** The call of [super().__init__] with the keywords: every keyword is assigned to the attribute
    of that name; a column that is not given is [None] ([active] then reads
    as false, its column default). *)
Definition init_kwargs `{PasswordHasher} (kw : kwargs) : t :=
  let self :=
    Build None (kw_username kw) (kw_email kw) None (kw_role kw)
      (from_option (λ b, b) false (kw_active kw)) None None None None None None in
  match kw_password kw with
  | Some p => password_set self p (kw_salt kw)
  | None => self
  end.

(** [User.__init__] *)
Definition init `{PasswordHasher}
    (cfg : Config) (roles : list Role.t) (kw : kwargs) : t :=
  let self := init_kwargs kw in
  match role self with
  | Some _ => self
  | None =>
      let self :=
        if bool_decide (email self = ADMIN_ADDRESS cfg)
        then set_role self (snd <$> Role.query_by_name "admin" roles)
        else self in
      match role self with
      | Some _ => self
      | None => set_role self (snd <$> Role.query_default roles)
      end
  end.

(** [generate_activation_token]; [expiration] defaults to [3600]. *)
Definition generate_activation_token `{Serializer}
    (cfg : Config) (self : t) (expiration now : Z) : token :=
  dumps (SECRET_KEY cfg) expiration now (JDict [("confirm", json_of_id (id self))]).

(** [activate]: the boolean that is returned and the object afterwards.
    [db.session.add(self)] only registers the object with the session. *)
Definition activate `{Serializer}
    (cfg : Config) (self : t) (tok : token) (now : Z) : result (bool * t) :=
  match loads (SECRET_KEY cfg) now tok with
  | BadData => Returned (false, self)
  | Loaded data =>
      match dict_get "confirm" data with
      | Raised e => Raised e
      | Returned v =>
          if negb (py_eq_id v (id self))
          then Returned (false, self)
          else Returned (true, set_active self true)
      end
  end.

(** [generate_auth_token] *)
Definition generate_auth_token `{Serializer}
    (cfg : Config) (self : t) (expiration now : Z) : token :=
  dumps (SECRET_KEY cfg) expiration now (JDict [("id", json_of_id (id self))]).

(** The object a row of the [user] table loads to: the columns, without
    the attributes that only live on a Python object. *)
Definition columns (self : t) : t := set__last_seen self None.

(** [User.query.get(ident)].  An integer is looked up as the primary key
    and [None] finds nothing; what the database driver does with any other
    value is left to [get_other]. *)
Definition query_get (get_other : json → result (option t))
    (table : gmap Z t) (ident : json) : result (option t) :=
  match ident with
  | JInt n => Returned (table !! n)
  | JNull => Returned None
  | _ => get_other ident
  end.

(** [verify_auth_token] *)
Definition verify_auth_token `{Serializer}
    (cfg : Config) (get_other : json → result (option t))
    (table : gmap Z t) (tok : token) (now : Z) : result (option t) :=
  match loads (SECRET_KEY cfg) now tok with
  | BadData => Returned None
  | Loaded data =>
      match getitem "id" data with
      | Raised e => Raised e
      | Returned v => query_get get_other table v
      end
  end.

(** [db.session.add(self); db.session.commit()]: a new object is inserted
    under an unused key with the column defaults ([member_since] and
    [last_seen] default to [datetime.utcnow] at that moment, read as
    [flushed]); an object that has a key has its row rewritten from its
    columns. *)
Definition session_commit (self : t) (flushed : datetime) (table : gmap Z t)
    : t * gmap Z t :=
  match id self with
  | Some i => (self, <[i := columns self]> table)
  | None =>
      let i := fresh (dom table) in
      let self := set_id self (Some i) in
      let self :=
        match member_since self with
        | None => set_member_since self (Some flushed)
        | Some _ => self
        end in
      let self :=
        match last_seen self with
        | None => set_last_seen self (Some flushed)
        | Some _ => self
        end in
      (self, <[i := columns self]> table)
  end.

(** [seen]: [self._last_seen = datetime.utcnow()], then add and commit. *)
Definition seen (self : t) (now flushed : datetime) (table : gmap Z t)
    : t * gmap Z t :=
  let self := set__last_seen self (Some now) in
  session_commit self flushed table.

(** [can]: [self.role and self.role.has_permission(perm)].  A [Role] object
    is truthy, so the value is [None] when the user has no role and the
    boolean of [has_permission] otherwise. *)
Definition can (self : t) (perm : Z) : option bool :=
  match role self with
  | None => None
  | Some r => Some (Role.has_permission r perm)
  end.

(** [is_admin] *)
Definition is_admin (self : t) : option bool := can self Permission.ADMIN.

End User.

(** ** [bleach] *)

(** The sanitiser is a library outside the repository: [clean] is
    [bleach.clean(text, tags=[])] and [linkify] is [bleach.linkify(text)]. *)
Class Bleach : Type := {
  clean : string → string;
  linkify : string → string;
}.

(** ** Text helpers: [str.strip] and [re.sub] *)

(** The characters below code point 128 for which [str.isspace] holds:
    tab to carriage return, the four separators and the space.  (Python also
    strips the Unicode spaces above 127; the model is exact on ASCII text.) *)
Definition isspace (c : ascii) : bool :=
  let n := Z.of_nat (nat_of_ascii c) in
  ((9 <=? n) && (n <=? 13)) || ((28 <=? n) && (n <=? 32)).

Fixpoint lstrip (s : string) : string :=
  match s with
  | EmptyString => EmptyString
  | String c s' => if isspace c then lstrip s' else s
  end.

Fixpoint rstrip (s : string) : string :=
  match s with
  | EmptyString => EmptyString
  | String c s' =>
      match rstrip s' with
      | EmptyString => if isspace c then EmptyString else String c EmptyString
      | r => String c r
      end
  end.

(** [value.strip()] *)
Definition strip (s : string) : string := rstrip (lstrip s).

Definition newline : ascii := ascii_of_nat 10.

(** [re.compile(r"\n+").sub(repl, s)]: every maximal run of newlines is
    replaced by one [repl]. *)
Fixpoint sub_newlines (repl s : string) : string :=
  match s with
  | EmptyString => EmptyString
  | String c s' =>
      if bool_decide (c = newline)
      then match s' with
           | String c' _ =>
               if bool_decide (c' = newline) then sub_newlines repl s'
               else repl +:+ sub_newlines repl s'
           | EmptyString => repl
           end
      else String c (sub_newlines repl s')
  end.

(** ** [class Comment] *)

Module Comment.

Record t : Type := Build {
  id : option Z;
  post_id : option Z;
  author_id : option Z;
  body : option string;
  body_html : option string;
  disabled : bool;
  timestamp : option datetime;
  edit_time : option datetime;
  parent_id : option Z;
}.

Definition set_body (self : t) (v : option string) : t :=
  Build (id self) (post_id self) (author_id self) v (body_html self)
    (disabled self) (timestamp self) (edit_time self) (parent_id self).

Definition set_body_html (self : t) (v : option string) : t :=
  Build (id self) (post_id self) (author_id self) (body self) v
    (disabled self) (timestamp self) (edit_time self) (parent_id self).

Definition set_timestamp (self : t) (v : option datetime) : t :=
  Build (id self) (post_id self) (author_id self) (body self) (body_html self)
    (disabled self) v (edit_time self) (parent_id self).

Definition set_edit_time (self : t) (v : option datetime) : t :=
  Build (id self) (post_id self) (author_id self) (body self) (body_html self)
    (disabled self) (timestamp self) v (parent_id self).

(** The HTML that [on_change_body] stores for [value]. *)
Definition render `{Bleach} (value : string) : string :=
  "<p>" +:+ linkify (sub_newlines "</p><p>" (clean (strip value))) +:+ "</p>".

(** [on_change_body(target, value, oldvalue, initiator)].  A [datetime] is
    always truthy, so [not target.edit_time] holds exactly when the column
    is [None]. *)
Definition on_change_body `{Bleach}
    (target : t) (value : string) (oldvalue : option string)
    (now : datetime) : t :=
  let target :=
    match edit_time target with
    | None => set_edit_time target (Some now)
    | Some _ => target
    end in
  set_body_html target (Some (render value)).

(** [target.body = value]: the listener registered by
    [db.event.listen(Comment.body, "set", Comment.on_change_body)] runs on
    every assignment, then the attribute takes the value. *)
Definition assign_body `{Bleach}
    (self : t) (value : string) (now : datetime) : t :=
  set_body (on_change_body self value (body self) now) (Some value).

(** [Comment(body=..., post=..., author=..., parent=...)]: a new object, all
    columns [None], then one assignment per keyword. *)
Definition init `{Bleach}
    (value : string) (post author parent : option Z) (now : datetime) : t :=
  assign_body (Build None post author None None false None None parent) value now.

(** [db.session.add(c); db.session.commit()] for a new comment: the row gets
    the key [key] and the column default of [timestamp],
    [datetime.utcnow] at that moment. *)
Definition insert (self : t) (key : Z) (flushed : datetime) : t :=
  let self :=
    Build (Some key) (post_id self) (author_id self) (body self) (body_html self)
      (disabled self) (timestamp self) (edit_time self) (parent_id self) in
  match timestamp self with
  | None => set_timestamp self (Some flushed)
  | Some _ => self
  end.

(** A run of assignments [c.body = value], each at its own instant. *)
Definition assign_all `{Bleach}
    (self : t) (edits : list (string * datetime)) : t :=
  foldl (λ c e, assign_body c e.1 e.2) self edits.

End Comment.

(** ** Truth values and characters of strings *)

(** The truth value that [if] gives to [None], [True] and [False]. *)
Definition truthy (v : option bool) : bool := from_option (λ b, b) false v.

(** [c in s] for a character [c]. *)
Fixpoint contains (c : ascii) (s : string) : bool :=
  match s with
  | EmptyString => false
  | String c' s' => bool_decide (c' = c) || contains c s'
  end.

(** [s] consists of whitespace only (the empty string included). *)
Fixpoint all_space (s : string) : bool :=
  match s with
  | EmptyString => true
  | String c s' => isspace c && all_space s'
  end.

(** ** [config.py] *)

Module Settings.

(** How the execution of a class body of [config.py] ends: the attributes
    are bound, or one of the lookups raises. *)
Inductive outcome (A : Type) : Type :=
  | Bound (a : A)
  | RaisedKeyError (key : string)
  | RaisedTypeError
  | RaisedValueError.
Arguments Bound {A} a.
Arguments RaisedKeyError {A} key.
Arguments RaisedTypeError {A}.
Arguments RaisedValueError {A}.

(** The attributes of [class Config] that are read from [os.environ]
    (the other attributes of the class are constants). *)
Record env_attrs : Type := {
  SECRET_KEY : string;
  SQLALCHEMY_RECORD_QUERIES : option string;
  MAIL_SERVER : option string;
  MAIL_PORT : Z;
  MAIL_USERNAME : option string;
  MAIL_PASSWORD : option string;
  MAIL_SENDER : option string;
  ADMIN_ADDRESS : option string;
}.

(** The body of [class Config], statement by statement.  [os.environ] is a
    map from names to values; [os.environ[k]] raises [KeyError] for a
    missing name and [os.environ.get(k)] gives [None]; [int(None)] raises
    [TypeError]; [int] of a string is the builtin [int_of_string], which
    gives [None] where Python raises [ValueError]. *)
Definition Config_body (int_of_string : string → option Z)
    (environ : gmap string string) : outcome env_attrs :=
  match environ !! "SECRET_KEY" with
  | None => RaisedKeyError "SECRET_KEY"
  | Some secret_key =>
      let record_queries := environ !! "DB_RECORD_QUERIES" in
      let mail_server := environ !! "MAIL_SERVER" in
      match environ !! "MAIL_PORT" with
      | None => RaisedTypeError
      | Some port =>
          match int_of_string port with
          | None => RaisedValueError
          | Some mail_port =>
              Bound {|
                SECRET_KEY := secret_key;
                SQLALCHEMY_RECORD_QUERIES := record_queries;
                MAIL_SERVER := mail_server;
                MAIL_PORT := mail_port;
                MAIL_USERNAME := environ !! "MAIL_USERNAME";
                MAIL_PASSWORD := environ !! "MAIL_PASSWORD";
                MAIL_SENDER := environ !! "MAIL_SENDER";
                ADMIN_ADDRESS := environ !! "ADMIN_ADDRESS";
              |}
          end
      end
  end.

(** The two entries that models.py reads through [current_app.config]. *)
Definition app_config (attrs : env_attrs) : Config :=
  Build_Config (SECRET_KEY attrs) (ADMIN_ADDRESS attrs).

(** [a or b] on an optional string: the empty string is falsy, like
    [None]. *)
Definition or_else (a : option string) (b : string) : string :=
  match a with
  | Some (String c s) => String c s
  | _ => b
  end.

(** [os.path.join(a, b)] of [posixpath] for two components. *)
Definition path_join (a b : string) : string :=
  match b with
  | String "/" _ => b
  | _ =>
      if bool_decide (a = EmptyString)
         || bool_decide (String.get (Nat.pred (String.length a)) a = Some "/"%char)
      then a +:+ b
      else a +:+ "/" +:+ b
  end.

(** [DevelopmentConfig.SQLALCHEMY_DATABASE_URI]; [basedir] is the
    directory of [config.py]. *)
Definition Development_DATABASE_URI
    (basedir : string) (environ : gmap string string) : string :=
  or_else (environ !! "DEV_DATABASE_URL")
          ("sqlite:///" +:+ path_join basedir "dev.sqlite").

(** [TestingConfig.SQLALCHEMY_DATABASE_URI] *)
Definition Testing_DATABASE_URI (environ : gmap string string) : string :=
  or_else (environ !! "TEST_DATABASE_URL") "sqlite://".

(** The keyword arguments that [ProductionConfig.init_app] hands to
    [SMTPHandler].  [secure = ()] is [Some tt]. *)
Record smtp_args : Type := {
  mailhost : option string * Z;
  fromaddr : option string;
  toaddrs : list (option string);
  subject : string;
  credentials : option (string * option string);
  secure : option unit;
}.

Definition MAIL_USE_TLS : bool := true.
Definition MAIL_SUBJECT_PREFIX : string := "[Kyle's junk] ".

(** [ProductionConfig.init_app], up to the construction of the handler. *)
Definition Production_init_app (cls : env_attrs) : smtp_args :=
  let credentials := None in
  let secure := None in
  let '(credentials, secure) :=
    match MAIL_USERNAME cls with
    | Some username =>
        let credentials := Some (username, MAIL_PASSWORD cls) in
        if MAIL_USE_TLS then (credentials, Some tt) else (credentials, secure)
    | None => (credentials, secure)
    end in
  {| mailhost := (MAIL_SERVER cls, MAIL_PORT cls);
     fromaddr := MAIL_SENDER cls;
     toaddrs := [ADMIN_ADDRESS cls];
     subject := MAIL_SUBJECT_PREFIX +:+ "Application error";
     credentials := credentials;
     secure := secure |}.

End Settings.

(** ** Reference instances of the library interfaces

    Small executable instances, used to run the models on concrete inputs. *)

Module Reference.

(** A token in the clear: the key, the expiry and the payload. *)
Definition ref_dumps (key : string) (expires_in issued : Z) (obj : json)
    : option (string * Z * json) :=
  Some (key, issued + expires_in, obj).

(** [None] stands for a string that is not a token at all. *)
Definition ref_loads (key : string) (now : Z) (tok : option (string * Z * json))
    : loaded :=
  match tok with
  | Some (k, exp, obj) =>
      if bool_decide (k = key) && bool_decide (now ≤ exp)
      then Loaded obj else BadData
  | None => BadData
  end.

#[local] Program Instance serializer : Serializer := {|
  token := option (string * Z * json);
  dumps := ref_dumps;
  loads := ref_loads;
|}.
Next Obligation.
  intros key expires_in issued now obj _. unfold ref_loads, ref_dumps.
  by rewrite bool_decide_true.
Qed.

#[local] Instance hasher : PasswordHasher := {|
  generate_password_hash := λ password salt, salt +:+ "$" +:+ password;
|}.

#[local] Instance bleach : Bleach := {|
  clean := λ s, s;
  linkify := λ s, s;
|}.

Definition cfg : Config :=
  {| SECRET_KEY := "secret"; ADMIN_ADDRESS := Some "admin@example.com" |}.

Definition user (i : Z) : User.t :=
  User.Build (Some i) (Some "brian") (Some "brian@example.com") None None
    false None None None (Some 100) (Some 100) None.

Definition get_other (ident : json) : result (option User.t) := Returned None.

End Reference.

(** * Theorems *)

(** ** Facts about the permission mask *)

Section mask.
Import Role.

Lemma land_pow2_cases (m k : Z) :
  0 ≤ k → Z.land m (2 ^ k) = (if Z.testbit m k then 2 ^ k else 0).
Proof.
  intros Hk. apply Z.bits_inj'. intros j Hj.
  rewrite Z.land_spec.
  destruct (decide (j = k)) as [->|Hne].
  - rewrite Z.pow2_bits_true by done.
    destruct (Z.testbit m k) eqn:E; rewrite andb_true_r.
    + by rewrite Z.pow2_bits_true.
    + by rewrite Z.bits_0.
  - rewrite Z.pow2_bits_false by lia. rewrite andb_false_r.
    destruct (Z.testbit m k).
    + by rewrite Z.pow2_bits_false by lia.
    + by rewrite Z.bits_0.
Qed.

Lemma has_permission_pow2 (self : t) (k : Z) :
  0 ≤ k → has_permission self (2 ^ k) = Z.testbit (permissions self) k.
Proof.
  intros Hk. unfold has_permission. rewrite land_pow2_cases by done.
  assert (0 < 2 ^ k) by (apply Z.pow_pos_nonneg; lia).
  destruct (Z.testbit (permissions self) k).
  - apply Z.eqb_refl.
  - apply Z.eqb_neq. lia.
Qed.

(** Adding an absent bit by [+] is setting it. *)
Lemma add_absent_bit (m k : Z) :
  0 ≤ k → Z.testbit m k = false → m + 2 ^ k = Z.lor m (2 ^ k).
Proof.
  intros Hk Hb.
  rewrite Z.add_nocarry_lxor, Z.lxor_lor; try done;
    rewrite land_pow2_cases, Hb; done.
Qed.

(** Removing a present bit by [-] is clearing it. *)
Lemma sub_present_bit (m k : Z) :
  0 ≤ k → Z.testbit m k = true → m - 2 ^ k = Z.ldiff m (2 ^ k).
Proof.
  intros Hk Hb.
  assert (Hm : m = Z.ldiff m (2 ^ k) + 2 ^ k).
  { rewrite Z.add_nocarry_lxor.
    - apply Z.bits_inj'. intros j Hj.
      rewrite Z.lxor_spec, Z.ldiff_spec.
      destruct (decide (j = k)) as [->|Hne].
      + rewrite Z.pow2_bits_true, Hb by done. done.
      + rewrite Z.pow2_bits_false by lia. simpl.
        by rewrite andb_true_r, xorb_false_r.
    - apply Z.bits_inj'. intros j Hj.
      rewrite Z.land_spec, Z.ldiff_spec, Z.bits_0.
      destruct (Z.testbit (2 ^ k) j); simpl;
        by rewrite ?andb_false_r, ?andb_true_r. }
  lia.
Qed.

Lemma add_permission_mask (self : t) (k : Z) :
  0 ≤ k →
  permissions (add_permission self (2 ^ k)) = Z.lor (permissions self) (2 ^ k).
Proof.
  intros Hk. unfold add_permission.
  rewrite has_permission_pow2 by done.
  destruct (Z.testbit (permissions self) k) eqn:E; simpl.
  - apply Z.bits_inj'. intros j Hj. rewrite Z.lor_spec.
    destruct (decide (j = k)) as [->|Hne].
    + by rewrite E.
    + rewrite Z.pow2_bits_false by lia. by rewrite orb_false_r.
  - by apply add_absent_bit.
Qed.

Lemma remove_permission_mask (self : t) (k : Z) :
  0 ≤ k →
  permissions (remove_permission self (2 ^ k))
  = Z.ldiff (permissions self) (2 ^ k).
Proof.
  intros Hk. unfold remove_permission.
  rewrite has_permission_pow2 by done.
  destruct (Z.testbit (permissions self) k) eqn:E; simpl.
  - by apply sub_present_bit.
  - apply Z.bits_inj'. intros j Hj. rewrite Z.ldiff_spec.
    destruct (decide (j = k)) as [->|Hne].
    + by rewrite E.
    + rewrite Z.pow2_bits_false by lia. by rewrite andb_true_r.
Qed.

End mask.


(** C7. For a role [self] and a permission value [2 ^ k] (every defined
    permission is one bit): [add_permission] sets bit [k] when it is not
    set, leaves the role as it is when the bit is set, is idempotent, makes
    [has_permission] true and changes no other bit; [remove_permission]
    clears bit [k] when it is set, leaves the role as it is otherwise, is
    idempotent, makes [has_permission] false and changes no other bit.
    Neither touches the name or the default flag. *)
Theorem add_remove_permission_bit (self : Role.t) (k : Z) :
  0 ≤ k →
  let perm := 2 ^ k in
  let added := Role.add_permission self perm in
  let removed := Role.remove_permission self perm in
  (Role.has_permission added perm = true
   ∧ Z.testbit (Role.permissions added) k = true
   ∧ Role.add_permission added perm = added
   ∧ (Role.has_permission self perm = true → added = self)
   ∧ (∀ j, j ≠ k →
        Z.testbit (Role.permissions added) j
        = Z.testbit (Role.permissions self) j)
   ∧ Role.name added = Role.name self
   ∧ Role.default added = Role.default self)
  ∧
  (Role.has_permission removed perm = false
   ∧ Z.testbit (Role.permissions removed) k = false
   ∧ Role.remove_permission removed perm = removed
   ∧ (Role.has_permission self perm = false → removed = self)
   ∧ (∀ j, j ≠ k →
        Z.testbit (Role.permissions removed) j
        = Z.testbit (Role.permissions self) j)
   ∧ Role.name removed = Role.name self
   ∧ Role.default removed = Role.default self).
Proof.
  intros Hk perm added removed.
  assert (Ha : Z.testbit (Role.permissions added) k = true).
  { subst added perm. rewrite add_permission_mask, Z.lor_spec by done.
    rewrite Z.pow2_bits_true by done. apply orb_true_r. }
  assert (Hr : Z.testbit (Role.permissions removed) k = false).
  { subst removed perm. rewrite remove_permission_mask, Z.ldiff_spec by done.
    rewrite Z.pow2_bits_true by done. apply andb_false_r. }
  split; split_and!.
  - subst perm. by rewrite has_permission_pow2.
  - done.
  - unfold Role.add_permission at 1. subst perm.
    rewrite has_permission_pow2 by done. by rewrite Ha.
  - intros Hp. subst added. unfold Role.add_permission. by rewrite Hp.
  - intros j Hj. subst added perm.
    rewrite add_permission_mask, Z.lor_spec by done.
    rewrite Z.pow2_bits_false by done. apply orb_false_r.
  - subst added. unfold Role.add_permission.
    by destruct (negb (Role.has_permission self perm)).
  - subst added. unfold Role.add_permission.
    by destruct (negb (Role.has_permission self perm)).
  - subst perm. by rewrite has_permission_pow2.
  - done.
  - unfold Role.remove_permission at 1. subst perm.
    rewrite has_permission_pow2 by done. by rewrite Hr.
  - intros Hp. subst removed. unfold Role.remove_permission. by rewrite Hp.
  - intros j Hj. subst removed perm.
    rewrite remove_permission_mask, Z.ldiff_spec by done.
    rewrite Z.pow2_bits_false by done. apply andb_true_r.
  - subst removed. unfold Role.remove_permission.
    by destruct (Role.has_permission self perm).
  - subst removed. unfold Role.remove_permission.
    by destruct (Role.has_permission self perm).
Qed.

(** The theorem at the role [user] with mask [3]: adding
    [WRITE = 2 ^ 2] and removing [COMMENT = 2 ^ 1]. *)
Lemma add_remove_permission_bit_witness :
  let self := Role.Build "user" false 3 in
  (0 ≤ 2) ∧ (0 ≤ 1)
  ∧ Role.has_permission (Role.add_permission self Permission.WRITE)
      Permission.WRITE = true
  ∧ Role.add_permission (Role.add_permission self Permission.WRITE)
      Permission.WRITE
    = Role.add_permission self Permission.WRITE
  ∧ Role.has_permission (Role.remove_permission self Permission.COMMENT)
      Permission.COMMENT = false.
Proof.
  intros self.
  destruct (add_remove_permission_bit self 2 ltac:(lia))
    as [(Hhas & _ & Hidem & _) _].
  destruct (add_remove_permission_bit self 1 ltac:(lia))
    as [_ (Hnot & _)].
  split; [lia|]. split; [lia|].
  split; [exact Hhas|]. split; [exact Hidem|exact Hnot].
Defined.

(** A value with several bits is not a permission: the arithmetic of
    [add_permission] is an update of one bit only for a single bit. *)
Example add_permission_two_bits :
  let self := Role.Build "user" false 1 in
  Role.permissions (Role.add_permission self 3) = 4
  ∧ Role.has_permission (Role.add_permission self 3) 3 = false.
Proof. split; reflexivity. Qed.

(** ** The first row that satisfies a predicate *)

Section find.
Context {A : Type} (P : A → Prop) `{!∀ x, Decision (P x)}.

(** Overwriting a row that does not satisfy [P] by another such row does not
    change what the query finds. *)
Lemma list_find_insert_other (l : list A) (i : nat) (x y : A) :
  l !! i = Some x → ¬ P x → ¬ P y →
  list_find P (<[i := y]> l) = list_find P l.
Proof.
  revert i. induction l as [|a l IH]; intros [|i] Hi Hx Hy; simplify_eq/=.
  - by rewrite !decide_False.
  - by rewrite (IH i).
Qed.

Lemma list_find_snoc_other (l : list A) (y : A) :
  ¬ P y → list_find P (l ++ [y]) = list_find P l.
Proof.
  intros Hy. induction l as [|a l IH]; simpl.
  - by rewrite decide_False.
  - by rewrite IH.
Qed.

(** Overwriting the row that the query finds by a row that satisfies [P]:
    the query finds the new row at the same place. *)
Lemma list_find_insert_found (l : list A) (i : nat) (x y : A) :
  list_find P l = Some (i, x) → P y →
  list_find P (<[i := y]> l) = Some (i, y).
Proof.
  intros (Hi & _ & Hleast)%list_find_Some Hy.
  apply list_find_Some. split_and!.
  - apply list_lookup_insert_eq. by eapply lookup_lt_Some.
  - done.
  - intros j z Hj Hlt. rewrite list_lookup_insert_ne in Hj by lia. eauto.
Qed.

Lemma list_find_snoc_new (l : list A) (y : A) :
  list_find P l = None → P y →
  list_find P (l ++ [y]) = Some (length l, y).
Proof.
  intros Hn Hy. rewrite list_find_app_r by done. simpl.
  by rewrite decide_True.
Qed.

End find.

(** ** Seeding the roles *)

Section seeding.

Lemma foldl_add_permission_name (perms : list Z) (x : Role.t) :
  Role.name (foldl Role.add_permission x perms) = Role.name x.
Proof.
  revert x. induction perms as [|p perms IH]; intros x; simpl; [done|].
  rewrite IH. unfold Role.add_permission.
  by destruct (negb (Role.has_permission x p)).
Qed.

(** On the three permission lists of the table, adding the bits one by one
    to an empty mask gives their union. *)
Lemma seed_role_configured (r : string) (perms : list Z) (x : Role.t) :
  (r, perms) ∈ Role.roles → Role.name x = r →
  Role.set_default
    (foldl Role.add_permission (Role.reset_permissions x) perms)
    (bool_decide
       (Role.name (foldl Role.add_permission (Role.reset_permissions x) perms)
        = Role.default_role))
  = Role.seeded r perms.
Proof.
  intros Hin Hx. destruct x as [n d m]. simpl in Hx. subst n.
  unfold Role.roles in Hin.
  repeat (apply elem_of_cons in Hin as [Heq|Hin];
          [injection Heq as Hr Hp; subst r perms; reflexivity|]).
  by apply elem_of_nil in Hin.
Qed.

Lemma seed_one_eq (table : list Role.t) (r : string) (perms : list Z) :
  (r, perms) ∈ Role.roles →
  Role.seed_one table (r, perms)
  = match Role.query_by_name r table with
    | Some (i, _) => <[i := Role.seeded r perms]> table
    | None => table ++ [Role.seeded r perms]
    end.
Proof.
  intros Hin. unfold Role.seed_one.
  destruct (Role.query_by_name r table) as [[i x]|] eqn:Hq.
  - apply list_find_Some in Hq as (_ & Hx & _).
    by rewrite (seed_role_configured r perms x).
  - by rewrite (seed_role_configured r perms (Role.init r)).
Qed.

(** After the iteration for [r], the query for [r] finds the seeded row. *)
Lemma seed_one_query_same (table : list Role.t) (r : string) (perms : list Z) :
  (r, perms) ∈ Role.roles →
  ∃ i, Role.query_by_name r (Role.seed_one table (r, perms))
       = Some (i, Role.seeded r perms).
Proof.
  intros Hin. rewrite seed_one_eq by done. unfold Role.query_by_name.
  destruct (list_find _ table) as [[i x]|] eqn:Hq.
  - exists i. by eapply list_find_insert_found.
  - exists (length table). by apply list_find_snoc_new.
Qed.

(** The iteration for [r'] does not change what the query for another name
    finds. *)
Lemma seed_one_query_other
    (table : list Role.t) (r r' : string) (perms : list Z) :
  (r', perms) ∈ Role.roles → r ≠ r' →
  Role.query_by_name r (Role.seed_one table (r', perms))
  = Role.query_by_name r table.
Proof.
  intros Hin Hne. rewrite seed_one_eq by done. unfold Role.query_by_name.
  destruct (list_find (λ x, Role.name x = r') table) as [[i x]|] eqn:Hq.
  - apply list_find_Some in Hq as (Hi & Hx & _).
    eapply list_find_insert_other; [done|..]; simpl; congruence.
  - apply list_find_snoc_other. simpl. congruence.
Qed.

(** An iteration that finds the seeded row already in place changes
    nothing. *)
Lemma seed_one_fixed
    (table : list Role.t) (r : string) (perms : list Z) (i : nat) :
  (r, perms) ∈ Role.roles →
  Role.query_by_name r table = Some (i, Role.seeded r perms) →
  Role.seed_one table (r, perms) = table.
Proof.
  intros Hin Hq. rewrite seed_one_eq, Hq by done.
  apply list_find_Some in Hq as (Hi & _). by apply list_insert_id.
Qed.

Local Abbreviation entry_user :=
  ("user", [Permission.FOLLOW; Permission.COMMENT]).
Local Abbreviation entry_moderator :=
  ("moderator", [Permission.FOLLOW; Permission.COMMENT; Permission.MODERATE]).
Local Abbreviation entry_admin :=
  ("admin", [Permission.FOLLOW; Permission.COMMENT; Permission.WRITE;
             Permission.MODERATE; Permission.ADMIN]).

Lemma roles_elem (e : string * list Z) :
  e ∈ Role.roles ↔ e = entry_user ∨ e = entry_moderator ∨ e = entry_admin.
Proof.
  unfold Role.roles. rewrite !elem_of_cons, elem_of_nil. tauto.
Qed.

(** The loop of [insert_roles], unrolled. *)
Lemma insert_roles_unfold (table : list Role.t) :
  Role.insert_roles table
  = Role.seed_one
      (Role.seed_one (Role.seed_one table entry_user) entry_moderator)
      entry_admin.
Proof. reflexivity. Qed.

(** What the queries find after [insert_roles], for each seeded name. *)
Lemma insert_roles_query (table : list Role.t) (r : string) (perms : list Z) :
  (r, perms) ∈ Role.roles →
  ∃ i, Role.query_by_name r (Role.insert_roles table)
       = Some (i, Role.seeded r perms).
Proof.
  intros Hin. rewrite insert_roles_unfold.
  pose proof (proj2 (roles_elem entry_user) (or_introl eq_refl)) as HU.
  pose proof (proj2 (roles_elem entry_moderator)
                (or_intror (or_introl eq_refl))) as HM.
  pose proof (proj2 (roles_elem entry_admin)
                (or_intror (or_intror eq_refl))) as HA.
  apply roles_elem in Hin as [Heq|[Heq|Heq]];
    injection Heq as Hr Hp; subst r perms.
  - rewrite !seed_one_query_other by done.
    by apply seed_one_query_same.
  - rewrite seed_one_query_other by done.
    by apply seed_one_query_same.
  - by apply seed_one_query_same.
Qed.

(** Seeding a seeded table changes nothing. *)
Lemma insert_roles_idempotent (table : list Role.t) :
  Role.insert_roles (Role.insert_roles table) = Role.insert_roles table.
Proof.
  set (t1 := Role.insert_roles table).
  assert (Hq : ∀ r perms, (r, perms) ∈ Role.roles →
            ∃ i, Role.query_by_name r t1 = Some (i, Role.seeded r perms))
    by (intros; by apply insert_roles_query).
  clearbody t1. rewrite insert_roles_unfold.
  assert (Hstep : ∀ e, e ∈ Role.roles → Role.seed_one t1 e = t1).
  { intros [r perms] He. destruct (Hq r perms He) as [i Hi].
    by eapply seed_one_fixed. }
  rewrite !Hstep; [done|apply roles_elem; auto..].
Qed.

(** *** Tables in which role names are unique *)

Lemma seed_one_names (table : list Role.t) (r : string) (perms : list Z) :
  (r, perms) ∈ Role.roles →
  Role.name <$> Role.seed_one table (r, perms)
  = match Role.query_by_name r table with
    | Some _ => Role.name <$> table
    | None => (Role.name <$> table) ++ [r]
    end.
Proof.
  intros Hin. rewrite seed_one_eq by done.
  destruct (Role.query_by_name r table) as [[i x]|] eqn:Hq.
  - apply list_find_Some in Hq as (Hi & Hx & _).
    rewrite list_fmap_insert. apply list_insert_id.
    rewrite list_lookup_fmap, Hi. simpl. by rewrite Hx.
  - by rewrite fmap_app.
Qed.

Lemma seed_one_NoDup (table : list Role.t) (e : string * list Z) :
  e ∈ Role.roles →
  NoDup (Role.name <$> table) → NoDup (Role.name <$> Role.seed_one table e).
Proof.
  destruct e as [r perms]. intros Hin Hnd. rewrite seed_one_names by done.
  destruct (Role.query_by_name r table) as [[i x]|] eqn:Hq; [done|].
  apply NoDup_app. split_and!; [done| |apply NoDup_singleton].
  intros n (y & -> & Hy)%list_elem_of_fmap Hr%list_elem_of_singleton.
  apply list_find_None in Hq. rewrite Forall_forall in Hq.
  by apply (Hq y).
Qed.

(** With unique names, a row after the iteration for [r] is the seeded row
    or an old row with another name. *)
Lemma seed_one_elem
    (table : list Role.t) (r : string) (perms : list Z) (x : Role.t) :
  (r, perms) ∈ Role.roles →
  NoDup (Role.name <$> table) →
  x ∈ Role.seed_one table (r, perms) →
  x = Role.seeded r perms ∨ (x ∈ table ∧ Role.name x ≠ r).
Proof.
  intros Hin Hnd. rewrite seed_one_eq by done.
  destruct (Role.query_by_name r table) as [[i y]|] eqn:Hq.
  - apply list_find_Some in Hq as (Hi & Hy & _).
    intros (j & Hj)%list_elem_of_lookup.
    apply list_lookup_insert_Some in Hj as [(-> & <- & _)|(Hne & Hj)]; [by left|].
    right. split; [by eapply list_elem_of_lookup_2|].
    intros Hx. apply Hne.
    apply (NoDup_lookup (Role.name <$> table) i j r); [done|..];
      rewrite list_lookup_fmap.
    + rewrite Hi. simpl. by rewrite Hy.
    + rewrite Hj. simpl. by rewrite Hx.
  - intros [Hx| ->%list_elem_of_singleton]%elem_of_app; [|by left].
    right. split; [done|].
    apply list_find_None in Hq. rewrite Forall_forall in Hq. by apply Hq.
Qed.

Lemma insert_roles_NoDup (table : list Role.t) :
  NoDup (Role.name <$> table) →
  NoDup (Role.name <$> Role.insert_roles table).
Proof.
  intros Hnd. rewrite insert_roles_unfold.
  repeat (apply seed_one_NoDup; [apply roles_elem; auto|]). done.
Qed.

(** With unique names, a row after [insert_roles] is one of the three seeded
    rows or an old row whose name is not seeded. *)
Lemma insert_roles_elem (table : list Role.t) (x : Role.t) :
  NoDup (Role.name <$> table) →
  x ∈ Role.insert_roles table →
  (∃ r perms, (r, perms) ∈ Role.roles ∧ x = Role.seeded r perms)
  ∨ (x ∈ table ∧ Role.name x ∉ (Role.roles.*1)).
Proof.
  intros Hnd. rewrite insert_roles_unfold.
  pose proof (proj2 (roles_elem entry_user) (or_introl eq_refl)) as HU.
  pose proof (proj2 (roles_elem entry_moderator)
                (or_intror (or_introl eq_refl))) as HM.
  pose proof (proj2 (roles_elem entry_admin)
                (or_intror (or_intror eq_refl))) as HA.
  assert (N1 : NoDup (Role.name <$> Role.seed_one table entry_user))
    by by apply seed_one_NoDup.
  assert (N2 : NoDup (Role.name <$>
                Role.seed_one (Role.seed_one table entry_user) entry_moderator))
    by by apply seed_one_NoDup.
  intros Hx.
  destruct (seed_one_elem _ _ _ _ HA N2 Hx) as [->|[Hx2 HnA]]; [left; eauto|].
  destruct (seed_one_elem _ _ _ _ HM N1 Hx2) as [->|[Hx1 HnM]]; [left; eauto|].
  destruct (seed_one_elem _ _ _ _ HU Hnd Hx1) as [->|[Hx0 HnU]]; [left; eauto|].
  right. split; [done|].
  unfold Role.roles. simpl. rewrite !not_elem_of_cons.
  split_and!; auto using not_elem_of_nil.
Qed.

Lemma NoDup_all_equal {A : Type} (l : list A) (u : A) :
  NoDup l → (∀ x, x ∈ l → x = u) → u ∈ l → l = [u].
Proof.
  intros Hnd Hall Hu. destruct l as [|a [|b l]].
  - by apply elem_of_nil in Hu.
  - by rewrite (Hall a) by apply list_elem_of_here.
  - exfalso.
    rewrite (Hall a), (Hall b) in Hnd
      by auto using list_elem_of_here, list_elem_of_further.
    apply NoDup_cons in Hnd as [Hn _]. apply Hn, list_elem_of_here.
Qed.

(** C1. For every prior state of the role table, after [insert_roles] the
    query for the role named [admin] finds a role whose mask is the union of
    the five defined bits: [has_permission] holds for every defined
    permission and no bit outside them is set.  For every entry of the
    seeding table the query finds a role with exactly the configured mask,
    after one run and after a second run, whatever bits were stored before;
    a second run leaves the table as the first one made it. *)
Theorem insert_roles_masks (table : list Role.t) :
  (∃ i admin,
     Role.query_by_name "admin" (Role.insert_roles table) = Some (i, admin)
     ∧ Role.name admin = "admin"
     ∧ Role.permissions admin
       = Z.lor Permission.FOLLOW (Z.lor Permission.COMMENT
           (Z.lor Permission.WRITE (Z.lor Permission.MODERATE Permission.ADMIN)))
     ∧ (∀ p, p ∈ Permission.all → Role.has_permission admin p = true)
     ∧ (∀ j, Z.testbit (Role.permissions admin) j = true
             ↔ 2 ^ j ∈ Permission.all))
  ∧ (∀ r perms, (r, perms) ∈ Role.roles →
       ∃ i role,
         Role.query_by_name r (Role.insert_roles table) = Some (i, role)
         ∧ Role.query_by_name r (Role.insert_roles (Role.insert_roles table))
           = Some (i, role)
         ∧ Role.permissions role = Role.configured_mask perms)
  ∧ Role.insert_roles (Role.insert_roles table) = Role.insert_roles table.
Proof.
  split_and!.
  - destruct (insert_roles_query table "admin"
                [Permission.FOLLOW; Permission.COMMENT; Permission.WRITE;
                 Permission.MODERATE; Permission.ADMIN]) as [i Hi].
    { apply roles_elem. auto. }
    exists i, (Role.seeded "admin"
                 [Permission.FOLLOW; Permission.COMMENT; Permission.WRITE;
                  Permission.MODERATE; Permission.ADMIN]).
    split_and!; [done|done|done| |].
    + intros p Hp. unfold Permission.all in Hp.
      repeat (apply elem_of_cons in Hp as [->|Hp]; [reflexivity|]).
      by apply elem_of_nil in Hp.
    + intros j. change (Role.permissions _) with 31.
      unfold Permission.all, Permission.FOLLOW, Permission.COMMENT,
        Permission.WRITE, Permission.MODERATE, Permission.ADMIN.
      rewrite !elem_of_cons, elem_of_nil.
      destruct (decide (j < 0)) as [Hneg|Hnn].
      { rewrite Z.testbit_neg_r, Z.pow_neg_r by done. split; [done|lia]. }
      destruct (decide (4 < j)) as [Hbig|Hsmall].
      { rewrite Z.bits_above_log2 by (simpl; lia).
        assert (2 ^ 5 ≤ 2 ^ j) by (apply Z.pow_le_mono_r; lia).
        split; [done|]. change (2 ^ 5) with 32 in *. lia. }
      assert (Hj : j = 0 ∨ j = 1 ∨ j = 2 ∨ j = 3 ∨ j = 4) by lia.
      destruct Hj as [->|[->|[->|[->| ->]]]]; simpl; split; auto 10.
  - intros r perms Hin. destruct (insert_roles_query table r perms Hin) as [i Hi].
    exists i, (Role.seeded r perms).
    by rewrite insert_roles_idempotent.
  - apply insert_roles_idempotent.
Qed.

(** C8, as the code has it.  [insert_roles] only writes the three roles of
    its table.  For every prior table in which names are unique (the
    [unique] constraint of the column) and in which no role outside the
    seeded three is flagged default, exactly one role is flagged default
    after seeding, and it is the role named [user]. *)
Theorem insert_roles_single_default (table : list Role.t) :
  NoDup (Role.name <$> table) →
  (∀ r, r ∈ table → Role.default r = true → Role.name r ∈ Role.roles.*1) →
  ∃ u, filter (λ r, Role.default r = true) (Role.insert_roles table) = [u]
       ∧ Role.name u = "user".
Proof.
  intros Hnd Hdef.
  exists (Role.seeded "user" [Permission.FOLLOW; Permission.COMMENT]).
  split; [|done].
  apply NoDup_all_equal.
  - apply NoDup_filter. eapply NoDup_fmap_1. by apply insert_roles_NoDup.
  - intros x [Hx Hin]%list_elem_of_filter.
    destruct (insert_roles_elem table x Hnd Hin)
      as [(r & perms & Hr & ->)|[Hin' Hname]].
    + apply roles_elem in Hr as [Heq|[Heq|Heq]];
        injection Heq as Hr Hp; subst r perms; done.
    + destruct Hname. by apply Hdef.
  - apply list_elem_of_filter. split; [done|].
    destruct (insert_roles_query table "user"
                [Permission.FOLLOW; Permission.COMMENT]) as [i Hi].
    { apply roles_elem. auto. }
    apply list_find_Some in Hi as (Hi & _).
    by eapply list_elem_of_lookup_2.
Qed.

(** The theorem at the empty table and at a table that holds stale rows for
    two of the seeded names. *)
Lemma insert_roles_single_default_witness :
  (∃ u, filter (λ r, Role.default r = true) (Role.insert_roles []) = [u]
        ∧ Role.name u = "user")
  ∧ (∃ u, filter (λ r, Role.default r = true)
            (Role.insert_roles
               [Role.Build "admin" true 64; Role.Build "guest" false 5;
                Role.Build "user" false 0]) = [u]
          ∧ Role.name u = "user").
Proof.
  split; apply insert_roles_single_default.
  - apply NoDup_nil_2.
  - intros r Hr. by apply elem_of_nil in Hr.
  - apply (bool_decide_unpack _). vm_compute. exact I.
  - intros r Hr Hd.
    repeat (apply elem_of_cons in Hr as [->|Hr];
            [first [discriminate Hd
                   |apply (bool_decide_unpack _); vm_compute; exact I]|]).
    by apply elem_of_nil in Hr.
Defined.

(** C8, as it is stated, fails: a role outside the seeding table that is
    flagged default keeps its flag, and two roles are flagged afterwards. *)
Lemma insert_roles_second_default :
  let table := [Role.Build "guest" true 0] in
  NoDup (Role.name <$> table)
  ∧ filter (λ r, Role.default r = true) (Role.insert_roles table)
    = [Role.Build "guest" true 0; Role.Build "user" true 3]
  ∧ ¬ ∃ u, filter (λ r, Role.default r = true) (Role.insert_roles table) = [u]
           ∧ Role.name u = "user".
Proof.
  split_and!.
  - apply NoDup_singleton.
  - reflexivity.
  - intros (u & Hu & _). discriminate Hu.
Qed.

End seeding.

(** ** Tokens *)

Section tokens.
Context `{Serializer}.

Lemma py_eq_id_same (i : option Z) : py_eq_id (json_of_id i) i = true.
Proof. destruct i as [n|]; simpl; [apply Z.eqb_refl|done]. Qed.

Lemma py_eq_id_other (i j : option Z) :
  i ≠ j → py_eq_id (json_of_id i) j = false.
Proof.
  intros Hne. destruct i as [n|], j as [m|]; simpl; try done.
  apply Z.eqb_neq. congruence.
Qed.

(** What [activate] does with a token that [generate_activation_token] made
    for [v]. *)
Lemma activate_issued
    (cfg : Config) (u v : User.t) (expiration issued now : Z) :
  0 ≤ now →
  User.activate cfg u (User.generate_activation_token cfg v expiration issued) now
  = if bool_decide (now ≤ issued + expiration)
    then if py_eq_id (json_of_id (User.id v)) (User.id u)
         then Returned (true, User.set_active u true)
         else Returned (false, u)
    else Returned (false, u).
Proof.
  intros Hnow. unfold User.activate, User.generate_activation_token.
  rewrite loads_dumps by done.
  case_bool_decide; [|done]. simpl.
  by destruct (py_eq_id _ _).
Qed.

(** C3. For users [u] and [v] and any instant [now]: [activate] on the
    token issued for [u], within its lifetime, returns true and leaves
    [u.active] true; on a token issued for a user with another id it returns
    false and leaves [u] as it was; on a token that the serializer rejects
    (malformed, tampered or expired: [loads] raises [BadData]) it returns
    false, leaves [u] as it was and does not raise. *)
Theorem activate_token
    (cfg : Config) (u v : User.t) (expiration issued now : Z) (tok : token) :
  0 ≤ now →
  (now ≤ issued + expiration →
     ∃ u', User.activate cfg u
             (User.generate_activation_token cfg u expiration issued) now
           = Returned (true, u')
           ∧ User.active u' = true
           ∧ u' = User.set_active u true)
  ∧ (User.id v ≠ User.id u →
       User.activate cfg u
         (User.generate_activation_token cfg v expiration issued) now
       = Returned (false, u))
  ∧ (issued + expiration < now →
       User.activate cfg u
         (User.generate_activation_token cfg u expiration issued) now
       = Returned (false, u))
  ∧ (loads (SECRET_KEY cfg) now tok = BadData →
       User.activate cfg u tok now = Returned (false, u)).
Proof.
  intros Hnow. split_and!.
  - intros Hlive. exists (User.set_active u true).
    rewrite activate_issued, bool_decide_true, py_eq_id_same by done. done.
  - intros Hid. rewrite activate_issued by done.
    rewrite py_eq_id_other by done. by case_bool_decide.
  - intros Hexp. rewrite activate_issued by done.
    rewrite bool_decide_false by lia. done.
  - intros Hbad. unfold User.activate. by rewrite Hbad.
Qed.

(** What [verify_auth_token] does when the payload carries an integer
    [id]: the row of that key, if there is one. *)
Lemma verify_auth_token_issued
    (cfg : Config) (get_other : json → result (option User.t))
    (table : gmap Z User.t) (u : User.t) (i expiration issued now : Z) :
  0 ≤ now → User.id u = Some i →
  User.verify_auth_token cfg get_other table
    (User.generate_auth_token cfg u expiration issued) now
  = if bool_decide (now ≤ issued + expiration)
    then Returned (table !! i) else Returned None.
Proof.
  intros Hnow Hid. unfold User.verify_auth_token, User.generate_auth_token.
  rewrite loads_dumps, Hid by done. by case_bool_decide.
Qed.

Lemma verify_auth_token_rejected
    (cfg : Config) (get_other : json → result (option User.t))
    (table : gmap Z User.t) (tok : token) (now : Z) :
  loads (SECRET_KEY cfg) now tok = BadData →
  User.verify_auth_token cfg get_other table tok now = Returned None.
Proof. intros Hbad. unfold User.verify_auth_token. by rewrite Hbad. Qed.

(** C4, where the code departs from it.  An activation token is signed with
    the same key and loads without error, but its payload has no [id]
    member: [verify_auth_token] lets the [KeyError] of [data["id"]] escape
    instead of returning [None]. *)
Theorem verify_auth_token_raises
    (cfg : Config) (get_other : json → result (option User.t))
    (table : gmap Z User.t) (u : User.t) (expiration issued now : Z) :
  0 ≤ now → now ≤ issued + expiration →
  User.verify_auth_token cfg get_other table
    (User.generate_activation_token cfg u expiration issued) now
  = Raised (KeyError "id").
Proof.
  intros Hnow Hlive.
  unfold User.verify_auth_token, User.generate_activation_token.
  rewrite loads_dumps, bool_decide_true by done. done.
Qed.

End tokens.

(** The theorem at the reference serializer: user [1] with its own token,
    with the token of user [2], with its own token after expiry and with a
    string that is not a token. *)
Lemma activate_token_witness :
  let u := Reference.user 1 in
  let v := Reference.user 2 in
  (0 ≤ 50)
  ∧ @User.activate Reference.serializer Reference.cfg u
      (@User.generate_activation_token Reference.serializer
         Reference.cfg v 3600 10) 50
    = Returned (false, u)
  ∧ @User.activate Reference.serializer Reference.cfg u None 50
    = Returned (false, u)
  ∧ @User.activate Reference.serializer Reference.cfg u
      (@User.generate_activation_token Reference.serializer
         Reference.cfg u 3600 10) 50
    = Returned (true, User.set_active u true).
Proof.
  intros u v.
  destruct (@activate_token Reference.serializer Reference.cfg u v 3600 10 50
              None ltac:(lia)) as (Hown & Hother & _ & Hbad).
  split; [lia|]. split; [|split].
  - apply Hother. discriminate.
  - apply Hbad. reflexivity.
  - destruct (Hown ltac:(lia)) as (u' & Hact & _ & ->). exact Hact.
Defined.

(** The theorem at the reference serializer: the activation token of user
    [1], ten seconds old, handed to [verify_auth_token]. *)
Lemma verify_auth_token_raises_witness :
  (0 ≤ 20) ∧ (20 ≤ 10 + 3600)
  ∧ @User.verify_auth_token Reference.serializer Reference.cfg
      Reference.get_other (<[1 := Reference.user 1]> ∅)
      (@User.generate_activation_token Reference.serializer
         Reference.cfg (Reference.user 1) 3600 10) 20
    = Raised (KeyError "id").
Proof.
  split; [lia|]. split; [lia|].
  apply (@verify_auth_token_raises Reference.serializer); lia.
Defined.

(** ** Users *)

Section users.
Context `{PasswordHasher}.

(** C5. Reading the [password] property of any user raises (the spec's
    AccessError is Python's [AttributeError] here) and returns nothing, also
    right after the setter ran; the setter stores the hash that the hasher
    returns in [password_hash] and changes no other attribute. *)
Theorem password_write_only (u : User.t) (pw salt : string) :
  User.password u = Raised (AttributeError "Password is not stored.")
  ∧ User.password (User.password_set u pw salt)
    = Raised (AttributeError "Password is not stored.")
  ∧ (∀ s, User.password (User.password_set u pw salt) ≠ Returned s)
  ∧ User.password_hash (User.password_set u pw salt)
    = Some (generate_password_hash pw salt)
  ∧ User.set_password_hash (User.password_set u pw salt) (User.password_hash u)
    = u.
Proof.
  split_and!; try done. by destruct u.
Qed.

Lemma init_kwargs_role (kw : User.kwargs) :
  User.role (User.init_kwargs kw) = User.kw_role kw.
Proof. unfold User.init_kwargs. by destruct (User.kw_password kw). Qed.

Lemma init_kwargs_email (kw : User.kwargs) :
  User.email (User.init_kwargs kw) = User.kw_email kw.
Proof. unfold User.init_kwargs. by destruct (User.kw_password kw). Qed.

(** C10. A user created without a role whose email equals the configured
    administrator address, when the role table has no role named [admin],
    gets what the query for the default role finds: the first role flagged
    default when there is one (and no role only when there is none). *)
Theorem init_admin_without_admin_role
    (cfg : Config) (roles : list Role.t) (kw : User.kwargs) :
  User.kw_role kw = None →
  User.kw_email kw = ADMIN_ADDRESS cfg →
  Role.query_by_name "admin" roles = None →
  User.role (User.init cfg roles kw) = snd <$> Role.query_default roles
  ∧ (∀ i d, Role.query_default roles = Some (i, d) →
       User.role (User.init cfg roles kw) = Some d
       ∧ Role.default d = true ∧ d ∈ roles)
  ∧ (Role.query_default roles = None →
       User.role (User.init cfg roles kw) = None
       ∧ ∀ d, d ∈ roles → Role.default d ≠ true).
Proof.
  intros Hrole Hemail Hadmin.
  assert (Hinit : User.role (User.init cfg roles kw)
                  = snd <$> Role.query_default roles).
  { unfold User.init. rewrite init_kwargs_role, Hrole, init_kwargs_email.
    rewrite bool_decide_true by done. rewrite Hadmin. done. }
  split_and!; [done|..].
  - intros i d Hq. rewrite Hinit, Hq. split; [done|].
    apply list_find_Some in Hq as (Hi & Hd & _).
    split; [done|]. by eapply list_elem_of_lookup_2.
  - intros Hq. rewrite Hinit, Hq. split; [done|].
    apply list_find_None in Hq. rewrite Forall_forall in Hq. done.
Qed.

End users.

(** The theorem at a table that was seeded before the [admin] role was
    renamed: the administrator address gets the role [user]. *)
Lemma init_admin_without_admin_role_witness :
  let roles := [Role.Build "user" true 3; Role.Build "root" false 31] in
  let kw := User.Build_kwargs (Some "kyle") (Some "admin@example.com")
              (Some "abc") "salt" None None in
  User.kw_role kw = None
  ∧ User.kw_email kw = ADMIN_ADDRESS Reference.cfg
  ∧ Role.query_by_name "admin" roles = None
  ∧ User.role (@User.init Reference.hasher Reference.cfg roles kw)
    = Some (Role.Build "user" true 3).
Proof.
  intros roles kw.
  split; [reflexivity|]. split; [reflexivity|]. split; [reflexivity|].
  destruct (@init_admin_without_admin_role Reference.hasher Reference.cfg
              roles kw eq_refl eq_refl eq_refl) as (_ & Hsome & _).
  exact (proj1 (Hsome 0%nat (Role.Build "user" true 3) eq_refl)).
Defined.

(** C9, where the code departs from it.  For a user that has a row, [seen]
    assigns the instant to the attribute [_last_seen], which is not a
    column: the column [last_seen] of the object keeps its value and the
    row that is committed is the row that was there, whatever the instant. *)
Theorem seen_keeps_last_seen
    (u : User.t) (i : Z) (now flushed : datetime) (table : gmap Z User.t) :
  User.id u = Some i →
  let after := User.seen u now flushed table in
  User.last_seen after.1 = User.last_seen u
  ∧ User._last_seen after.1 = Some now
  ∧ after.2 !! i = Some (User.columns u)
  ∧ User.last_seen <$> after.2 !! i = Some (User.last_seen u).
Proof.
  intros Hid after. subst after. unfold User.seen, User.session_commit.
  simpl. rewrite Hid. simpl. rewrite lookup_insert_eq. by destruct u.
Qed.

(** The theorem at user [3], last seen at instant [100], calling [seen] at
    instant [500]: [last_seen] is still [100], in the object and in the
    row. *)
Lemma seen_keeps_last_seen_witness :
  let u := Reference.user 3 in
  let after := User.seen u 500 501 (<[3 := User.columns u]> ∅) in
  User.id u = Some 3
  ∧ User.last_seen after.1 = Some 100
  ∧ User.last_seen <$> after.2 !! 3 = Some (Some 100).
Proof.
  intros u after.
  destruct (seen_keeps_last_seen u 3 500 501 (<[3 := User.columns u]> ∅)
              eq_refl) as (Hobj & _ & _ & Hrow).
  split; [reflexivity|]. split; [exact Hobj|exact Hrow].
Defined.

(** ** Comments *)

Section comments.
Context `{Bleach}.

(** The stored HTML is the pipeline of [on_change_body] applied to the
    value that is assigned. *)
Lemma assign_body_html (c : Comment.t) (value : string) (now : datetime) :
  Comment.body (Comment.assign_body c value now) = Some value
  ∧ Comment.body_html (Comment.assign_body c value now)
    = Some ("<p>" +:+ linkify (sub_newlines "</p><p>" (clean (strip value)))
            +:+ "</p>").
Proof. done. Qed.

(** The stored HTML only depends on the stripped value. *)
Lemma render_strip (value value' : string) :
  strip value = strip value' → Comment.render value = Comment.render value'.
Proof. unfold Comment.render. by intros ->. Qed.

(** [str.strip] and the substitution of [re.sub], on small inputs. *)
Example strip_both_ends :
  strip (String newline " a b  " +:+ String newline "") = "a b".
Proof. reflexivity. Qed.

Example sub_newlines_runs :
  sub_newlines "</p><p>"
    ("a" +:+ String newline (String newline "b") +:+ String newline "c")
  = "a</p><p>b</p><p>c".
Proof. reflexivity. Qed.

(** C2, where the code departs from it.  The constructor assigns [body]
    while [edit_time] is [None], so the listener sets [edit_time] to the
    instant of creation; every later assignment finds [edit_time] set and
    leaves it alone.  [edit_time] is thus never unset after creation and
    never records the instant of an edit. *)
Theorem edit_time_set_at_creation
    (value value' : string) (post author parent : option Z)
    (key : Z) (created flushed edited : datetime) :
  let c := Comment.init value post author parent created in
  let stored := Comment.insert c key flushed in
  let c' := Comment.assign_body stored value' edited in
  Comment.edit_time c = Some created
  ∧ Comment.edit_time stored = Some created
  ∧ Comment.timestamp stored = Some flushed
  ∧ Comment.body c' = Some value'
  ∧ Comment.edit_time c' = Some created.
Proof. done. Qed.

End comments.

(** The same run with the reference sanitiser: created at instant [10],
    inserted at [11], edited at [90]. *)
Example edit_time_run :
  let c := @Comment.init Reference.bleach "first" (Some 1) (Some 1) None 10 in
  let c' := @Comment.assign_body Reference.bleach
              (Comment.insert c 7 11) "second" 90 in
  Comment.edit_time c = Some 10
  ∧ c' = Comment.Build (Some 7) (Some 1) (Some 1) (Some "second")
           (Some "<p>second</p>") false (Some 11) (Some 10) None.
Proof. split; reflexivity. Qed.

(** * Further properties of the models *)

(** ** Permission masks *)

Section masks_more.

Lemma land_eq_iff_bits (m perm : Z) :
  Z.land m perm = perm
  ↔ ∀ j, 0 ≤ j → Z.testbit perm j = true → Z.testbit m j = true.
Proof.
  split.
  - intros Heq j Hj Hp. rewrite <- Heq, Z.land_spec in Hp.
    by apply andb_true_iff in Hp as [? _].
  - intros Hall. apply Z.bits_inj'. intros j Hj. rewrite Z.land_spec.
    destruct (Z.testbit perm j) eqn:Hp.
    + by rewrite (Hall j Hj Hp).
    + apply andb_false_r.
Qed.

(** X1. [has_permission] holds exactly when every bit of [perm] is a bit of
    the mask, for any integers (so it holds for [perm = 0] on every role,
    and a value with several bits is held only when all of them are). *)
Theorem has_permission_bits (self : Role.t) (perm : Z) :
  (Role.has_permission self perm = true
   ↔ ∀ j, 0 ≤ j → Z.testbit perm j = true →
          Z.testbit (Role.permissions self) j = true)
  ∧ Role.has_permission self 0 = true
  ∧ (Role.has_permission (Role.reset_permissions self) perm = true ↔ perm = 0).
Proof.
  unfold Role.has_permission. split_and!.
  - rewrite Z.eqb_eq. apply land_eq_iff_bits.
  - by rewrite Z.land_0_r.
  - cbn [Role.reset_permissions Role.set_permissions Role.permissions].
    rewrite Z.land_0_l, Z.eqb_eq. split; intros; by subst.
Qed.

(** X2. For a single bit [2 ^ k]: adding a permission that the role lacks
    and removing it again gives the role back, and so does removing a
    permission that the role has and adding it again. *)
Theorem add_remove_round_trip (self : Role.t) (k : Z) :
  0 ≤ k →
  (Role.has_permission self (2 ^ k) = false →
     Role.remove_permission (Role.add_permission self (2 ^ k)) (2 ^ k) = self)
  ∧ (Role.has_permission self (2 ^ k) = true →
       Role.add_permission (Role.remove_permission self (2 ^ k)) (2 ^ k) = self).
Proof.
  intros Hk. split; intros Hp.
  - assert (Hb : Z.testbit (Role.permissions (Role.add_permission self (2 ^ k))) k
                 = true).
    { rewrite add_permission_mask, Z.lor_spec, Z.pow2_bits_true by done.
      apply orb_true_r. }
    unfold Role.remove_permission. rewrite has_permission_pow2, Hb by done.
    unfold Role.add_permission. rewrite Hp. simpl.
    destruct self as [n d m]. unfold Role.set_permissions. simpl.
    f_equal. lia.
  - assert (Hb : Z.testbit
                   (Role.permissions (Role.remove_permission self (2 ^ k))) k
                 = false).
    { rewrite remove_permission_mask, Z.ldiff_spec, Z.pow2_bits_true by done.
      apply andb_false_r. }
    unfold Role.add_permission. rewrite has_permission_pow2, Hb by done.
    unfold Role.remove_permission. rewrite Hp. simpl.
    destruct self as [n d m]. unfold Role.set_permissions. simpl.
    f_equal. lia.
Qed.

(** The theorem at the role [user] with mask [3]: [WRITE] is lacking and
    [COMMENT] is held. *)
Lemma add_remove_round_trip_witness :
  let self := Role.Build "user" false 3 in
  (0 ≤ 2) ∧ (0 ≤ 1)
  ∧ Role.remove_permission (Role.add_permission self Permission.WRITE)
      Permission.WRITE = self
  ∧ Role.add_permission (Role.remove_permission self Permission.COMMENT)
      Permission.COMMENT = self.
Proof.
  intros self. split; [lia|]. split; [lia|]. split.
  - exact (proj1 (add_remove_round_trip self 2 ltac:(lia)) eq_refl).
  - exact (proj2 (add_remove_round_trip self 1 ltac:(lia)) eq_refl).
Defined.

Lemma foldl_add_permission_default (perms : list Z) (x : Role.t) :
  Role.default (foldl Role.add_permission x perms) = Role.default x.
Proof.
  revert x. induction perms as [|p perms IH]; intros x; simpl; [done|].
  rewrite IH. unfold Role.add_permission.
  by destruct (negb (Role.has_permission x p)).
Qed.

(** X3. Adding a list of single-bit permissions one after the other, as the
    inner loop of [insert_roles] does, leaves the union of the old mask and
    of the listed bits, whatever the order of the list and however often a
    bit is listed; the name and the default flag are not touched. *)
Theorem add_permissions_union (self : Role.t) (perms : list Z) :
  Forall (λ p, ∃ k, 0 ≤ k ∧ p = 2 ^ k) perms →
  Role.permissions (foldl Role.add_permission self perms)
  = Z.lor (Role.permissions self) (Role.configured_mask perms)
  ∧ Role.name (foldl Role.add_permission self perms) = Role.name self
  ∧ Role.default (foldl Role.add_permission self perms) = Role.default self.
Proof.
  intros Hbits. split; [|split].
  - revert self. induction Hbits as [|p perms (k & Hk & ->) _ IH];
      intros self; simpl.
    + by rewrite Z.lor_0_r.
    + rewrite IH, add_permission_mask by done. by rewrite Z.lor_assoc.
  - apply foldl_add_permission_name.
  - apply foldl_add_permission_default.
Qed.

(** The theorem at a role with mask [8] and a list that repeats a bit and
    is not sorted. *)
Lemma add_permissions_union_witness :
  let self := Role.Build "moderator" false 8 in
  Forall (λ p, ∃ k, 0 ≤ k ∧ p = 2 ^ k) [4; 1; 4; 8]
  ∧ Role.permissions (foldl Role.add_permission self [4; 1; 4; 8]) = 13.
Proof.
  intros self.
  assert (Hbits : Forall (λ p, ∃ k, 0 ≤ k ∧ p = 2 ^ k) [4; 1; 4; 8]).
  { repeat apply Forall_cons_2; [exists 2|exists 0|exists 2|exists 3|];
      [split; [lia|reflexivity]..|apply Forall_nil_2]. }
  split; [exact Hbits|].
  exact (proj1 (add_permissions_union self [4; 1; 4; 8] Hbits)).
Defined.

End masks_more.

(** ** The role table after seeding *)

Section seeding_more.

Lemma query_by_name_None (r : string) (table : list Role.t) :
  Role.query_by_name r table = None ↔ r ∉ Role.name <$> table.
Proof.
  unfold Role.query_by_name. rewrite list_find_None, Forall_forall.
  rewrite list_elem_of_fmap. split.
  - intros Hall (x & -> & Hx). by apply (Hall x).
  - intros Hno x Hx Heq. apply Hno. by exists x.
Qed.

(** An iteration leaves every row of another name where it is. *)
Lemma seed_one_lookup_other
    (table : list Role.t) (r : string) (perms : list Z) (i : nat) (x : Role.t) :
  (r, perms) ∈ Role.roles →
  table !! i = Some x → Role.name x ≠ r →
  Role.seed_one table (r, perms) !! i = Some x.
Proof.
  intros Hin Hi Hne. rewrite seed_one_eq by done.
  destruct (Role.query_by_name r table) as [[j y]|] eqn:Hq.
  - apply list_find_Some in Hq as (Hj & Hy & _).
    rewrite list_lookup_insert_ne; [done|]. intros ->. congruence.
  - by apply lookup_app_l_Some.
Qed.

(** X4. [insert_roles] never removes or moves a row: the names of the old
    rows stay in place, followed by the seeded names that were missing, in
    the order of the seeding table; a row whose name is not one of the three
    is found unchanged at its position. *)
Theorem insert_roles_keeps_rows (table : list Role.t) :
  Role.name <$> Role.insert_roles table
  = (Role.name <$> table)
    ++ filter (λ r, r ∉ Role.name <$> table) (Role.roles.*1)
  ∧ ∀ i x, table !! i = Some x → Role.name x ∉ Role.roles.*1 →
           Role.insert_roles table !! i = Some x.
Proof.
  pose proof (proj2 (roles_elem ("user", [Permission.FOLLOW; Permission.COMMENT]))
                (or_introl eq_refl)) as HU.
  pose proof (proj2 (roles_elem
                ("moderator",
                 [Permission.FOLLOW; Permission.COMMENT; Permission.MODERATE]))
                (or_intror (or_introl eq_refl))) as HM.
  pose proof (proj2 (roles_elem
                ("admin",
                 [Permission.FOLLOW; Permission.COMMENT; Permission.WRITE;
                  Permission.MODERATE; Permission.ADMIN]))
                (or_intror (or_intror eq_refl))) as HA.
  split.
  - rewrite insert_roles_unfold.
    set (t1 := Role.seed_one table _).
    set (t2 := Role.seed_one t1 _).
    assert (Qm : Role.query_by_name "moderator" t1
                 = Role.query_by_name "moderator" table)
      by (subst t1; by rewrite seed_one_query_other).
    assert (Qa : Role.query_by_name "admin" t2
                 = Role.query_by_name "admin" table)
      by (subst t2 t1; by rewrite !seed_one_query_other).
    rewrite (seed_one_names t2 _ _ HA), Qa. subst t2.
    rewrite (seed_one_names t1 _ _ HM), Qm. subst t1.
    rewrite (seed_one_names table _ _ HU).
    change (Role.roles.*1) with ["user"; "moderator"; "admin"].
    rewrite !filter_cons, filter_nil.
    clear Qm Qa.
    pose proof (query_by_name_None "user" table) as Eu.
    pose proof (query_by_name_None "moderator" table) as Em.
    pose proof (query_by_name_None "admin" table) as Ea.
    destruct (Role.query_by_name "user" table) as [u|];
    destruct (Role.query_by_name "moderator" table) as [m|];
    destruct (Role.query_by_name "admin" table) as [a|];
    repeat case_decide;
    try (by rewrite <- ?app_assoc, ?app_nil_r);
    exfalso;
    repeat match goal with
      | E : None = None ↔ _ |- _ => apply proj1 in E; specialize (E eq_refl)
      | E : Some _ = None ↔ _ |- _ => apply proj2 in E
      end;
    first [contradiction
          |match goal with
           | E : ?P → Some _ = None, Hp : ?P |- _ => discriminate (E Hp)
           end].
  - intros i x Hi Hname. rewrite insert_roles_unfold.
    unfold Role.roles in Hname. simpl in Hname.
    rewrite !not_elem_of_cons in Hname. destruct Hname as (? & ? & ? & _).
    by repeat (apply seed_one_lookup_other; [done| |done]).
Qed.

(** X5. In a table with unique names, after [insert_roles] every row that
    bears a seeded name has exactly the mask of the seeding table and is
    flagged default exactly when it is the role [user]. *)
Theorem insert_roles_all_named
    (table : list Role.t) (x : Role.t) (r : string) (perms : list Z) :
  NoDup (Role.name <$> table) →
  (r, perms) ∈ Role.roles →
  x ∈ Role.insert_roles table → Role.name x = r →
  Role.permissions x = Role.configured_mask perms
  ∧ Role.default x = bool_decide (r = "user").
Proof.
  intros Hnd Hr Hx Hname.
  destruct (insert_roles_elem table x Hnd Hx)
    as [(r' & perms' & Hr' & ->)|[_ Hout]].
  - simpl in Hname. subst r'.
    assert (perms' = perms) as ->; [|done].
    apply roles_elem in Hr as [Heq|[Heq|Heq]];
      apply roles_elem in Hr' as [Heq'|[Heq'|Heq']];
      congruence.
  - destruct Hout. rewrite Hname.
    apply list_elem_of_fmap. by exists (r, perms).
Qed.

(** The theorem at a table with stale rows for [moderator] and [admin]. *)
Lemma insert_roles_all_named_witness :
  let table := [Role.Build "moderator" true 31; Role.Build "admin" false 0] in
  let x := Role.Build "moderator" false 11 in
  NoDup (Role.name <$> table)
  ∧ x ∈ Role.insert_roles table
  ∧ Role.permissions x
    = Role.configured_mask
        [Permission.FOLLOW; Permission.COMMENT; Permission.MODERATE]
  ∧ Role.default x = false.
Proof.
  intros table x.
  assert (Hnd : NoDup (Role.name <$> table))
    by (apply (bool_decide_unpack _); vm_compute; exact I).
  assert (Hx : x ∈ Role.insert_roles table) by apply list_elem_of_here.
  split; [exact Hnd|]. split; [exact Hx|].
  apply (insert_roles_all_named table x "moderator"
           [Permission.FOLLOW; Permission.COMMENT; Permission.MODERATE]);
    [exact Hnd| |exact Hx|reflexivity].
  apply list_elem_of_further, list_elem_of_here.
Defined.

End seeding_more.

(** ** What a user may do *)

Section access.
Context `{PasswordHasher}.

(** X6. [can] is truthy exactly when the user has a role whose mask holds
    every bit of [perm]; for a user without a role it is [None] for every
    [perm].  [is_admin] is truthy exactly when the user has a role whose
    mask holds bit 4. *)
Theorem can_truthy (u : User.t) (perm : Z) :
  (truthy (User.can u perm) = true
   ↔ ∃ r, User.role u = Some r
          ∧ ∀ j, 0 ≤ j → Z.testbit perm j = true →
                 Z.testbit (Role.permissions r) j = true)
  ∧ (User.role u = None → User.can u perm = None)
  ∧ (truthy (User.is_admin u) = true
     ↔ ∃ r, User.role u = Some r ∧ Z.testbit (Role.permissions r) 4 = true).
Proof.
  unfold User.is_admin, User.can. split_and!.
  - destruct (User.role u) as [r|]; simpl.
    + unfold Role.has_permission. rewrite Z.eqb_eq, land_eq_iff_bits.
      split; [eauto|]. by intros (r' & [= <-] & Hr).
    + split; [done|]. by intros (r & [=] & _).
  - by intros ->.
  - destruct (User.role u) as [r|]; simpl.
    + change Permission.ADMIN with (2 ^ 4).
      rewrite has_permission_pow2 by lia. split; [eauto|].
      by intros (r' & [= <-] & Hr).
    + split; [done|]. by intros (r & [=] & _).
Qed.

Lemma init_explicit_role
    (cfg : Config) (roles : list Role.t) (kw : User.kwargs) (r : Role.t) :
  User.kw_role kw = Some r → User.role (User.init cfg roles kw) = Some r.
Proof.
  intros Hr. unfold User.init. rewrite init_kwargs_role, Hr.
  by rewrite init_kwargs_role.
Qed.

(** X7. After [insert_roles] on any table, a user that is constructed with
    [role = Role.query.filter_by(name=n).first()] for a seeded name [n] (as
    the helper [add_user] of the tests does) keeps that role whatever its
    email, and [can] is truthy for a defined permission exactly when the
    seeding table lists it for [n]. *)
Theorem seeded_role_grants
    (cfg : Config) (table : list Role.t) (kw : User.kwargs)
    (n : string) (perms : list Z) :
  (n, perms) ∈ Role.roles →
  User.kw_role kw = snd <$> Role.query_by_name n (Role.insert_roles table) →
  let u := User.init cfg (Role.insert_roles table) kw in
  User.role u = Some (Role.seeded n perms)
  ∧ ∀ p, p ∈ Permission.all →
         truthy (User.can u p) = bool_decide (p ∈ perms).
Proof.
  intros Hn Hkw u.
  destruct (insert_roles_query table n perms Hn) as [i Hq].
  rewrite Hq in Hkw. simpl in Hkw.
  assert (Hu : User.role u = Some (Role.seeded n perms))
    by by apply init_explicit_role.
  split; [done|]. intros p Hp. unfold User.can. rewrite Hu. simpl.
  unfold Permission.all in Hp.
  apply roles_elem in Hn as [Heq|[Heq|Heq]];
    injection Heq as Hr Hps; subst n perms;
    repeat (apply elem_of_cons in Hp as [->|Hp]; [reflexivity|]);
    by apply elem_of_nil in Hp.
Qed.

(** X8. After [insert_roles] on any table, a user that is created without a
    role and whose email equals the configured administrator address (both
    may be [None]) gets the seeded [admin] role, and [is_admin] is truthy. *)
Theorem init_admin_after_seeding
    (cfg : Config) (table : list Role.t) (kw : User.kwargs) :
  User.kw_role kw = None →
  User.kw_email kw = ADMIN_ADDRESS cfg →
  let u := User.init cfg (Role.insert_roles table) kw in
  User.role u
  = Some (Role.seeded "admin"
            [Permission.FOLLOW; Permission.COMMENT; Permission.WRITE;
             Permission.MODERATE; Permission.ADMIN])
  ∧ truthy (User.is_admin u) = true.
Proof.
  intros Hrole Hemail u.
  destruct (insert_roles_query table "admin"
              [Permission.FOLLOW; Permission.COMMENT; Permission.WRITE;
               Permission.MODERATE; Permission.ADMIN]) as [i Hq].
  { apply roles_elem. auto. }
  assert (Hu : User.role u = Some (Role.seeded "admin"
            [Permission.FOLLOW; Permission.COMMENT; Permission.WRITE;
             Permission.MODERATE; Permission.ADMIN])).
  { subst u. unfold User.init.
    rewrite init_kwargs_role, Hrole, init_kwargs_email.
    rewrite bool_decide_true by done. by rewrite Hq. }
  split; [done|]. unfold User.is_admin, User.can. by rewrite Hu.
Qed.

(** What the query for the default role finds after seeding a table with
    unique names and no default role outside the seeded ones. *)
Lemma insert_roles_query_default (table : list Role.t) :
  NoDup (Role.name <$> table) →
  (∀ r, r ∈ table → Role.default r = true → Role.name r ∈ Role.roles.*1) →
  ∃ i, Role.query_default (Role.insert_roles table)
       = Some (i, Role.seeded "user" [Permission.FOLLOW; Permission.COMMENT]).
Proof.
  intros Hnd Hdef. unfold Role.query_default.
  destruct (list_find _ (Role.insert_roles table)) as [[i d]|] eqn:Hq.
  - exists i. apply list_find_Some in Hq as (Hi & Hd & _).
    apply list_elem_of_lookup_2 in Hi.
    destruct (insert_roles_elem table d Hnd Hi)
      as [(r & perms & Hr & ->)|[Hin Hname]].
    + apply roles_elem in Hr as [Heq|[Heq|Heq]];
        injection Heq as Hr Hp; subst r perms; done.
    + destruct Hname. by apply Hdef.
  - exfalso. apply list_find_None in Hq. rewrite Forall_forall in Hq.
    destruct (insert_roles_query table "user"
                [Permission.FOLLOW; Permission.COMMENT]) as [i Hi].
    { apply roles_elem. auto. }
    apply list_find_Some in Hi as (Hi & _).
    apply list_elem_of_lookup_2 in Hi. by apply (Hq _ Hi).
Qed.

(** X9. After [insert_roles] on a table with unique names in which no role
    outside the seeded three was flagged default, a user that is created
    without a role and whose email is not the administrator address gets the
    seeded [user] role: it may follow and comment, and may not write,
    moderate or administer. *)
Theorem init_default_after_seeding
    (cfg : Config) (table : list Role.t) (kw : User.kwargs) :
  NoDup (Role.name <$> table) →
  (∀ r, r ∈ table → Role.default r = true → Role.name r ∈ Role.roles.*1) →
  User.kw_role kw = None →
  User.kw_email kw ≠ ADMIN_ADDRESS cfg →
  let u := User.init cfg (Role.insert_roles table) kw in
  User.role u
  = Some (Role.seeded "user" [Permission.FOLLOW; Permission.COMMENT])
  ∧ truthy (User.can u Permission.FOLLOW) = true
  ∧ truthy (User.can u Permission.COMMENT) = true
  ∧ truthy (User.can u Permission.WRITE) = false
  ∧ truthy (User.can u Permission.MODERATE) = false
  ∧ truthy (User.is_admin u) = false.
Proof.
  intros Hnd Hdef Hrole Hemail u.
  destruct (insert_roles_query_default table Hnd Hdef) as [i Hq].
  assert (Hu : User.role u
               = Some (Role.seeded "user" [Permission.FOLLOW; Permission.COMMENT])).
  { subst u. unfold User.init.
    rewrite init_kwargs_role, Hrole, init_kwargs_email.
    rewrite bool_decide_false by done.
    rewrite init_kwargs_role, Hrole. by rewrite Hq. }
  unfold User.is_admin, User.can. rewrite Hu. done.
Qed.

End access.

(** The theorem at the role [moderator] of a table seeded from nothing. *)
Lemma seeded_role_grants_witness :
  let kw := User.Build_kwargs (Some "bob") (Some "bob@example.com")
              (Some "xyz") "salt" (Some (Role.Build "moderator" false 11))
              (Some true) in
  let u := @User.init Reference.hasher Reference.cfg (Role.insert_roles []) kw in
  User.kw_role kw = snd <$> Role.query_by_name "moderator" (Role.insert_roles [])
  ∧ truthy (User.can u Permission.MODERATE) = true
  ∧ truthy (User.can u Permission.WRITE) = false.
Proof.
  intros kw u.
  assert (Hm : ("moderator",
                [Permission.FOLLOW; Permission.COMMENT; Permission.MODERATE])
               ∈ Role.roles)
    by apply list_elem_of_further, list_elem_of_here.
  destruct (@seeded_role_grants Reference.hasher Reference.cfg [] kw
              "moderator" _ Hm eq_refl) as [_ Hcan].
  split; [reflexivity|]. split.
  - apply (Hcan Permission.MODERATE). unfold Permission.all.
    do 3 apply list_elem_of_further. apply list_elem_of_here.
  - apply (Hcan Permission.WRITE). unfold Permission.all.
    do 2 apply list_elem_of_further. apply list_elem_of_here.
Defined.

(** The theorem where no administrator address is configured and the user
    is created without an email: the user is an administrator. *)
Lemma init_admin_after_seeding_witness :
  let cfg := {| SECRET_KEY := "secret"; ADMIN_ADDRESS := None |} in
  let kw := User.Build_kwargs (Some "eve") None (Some "abc") "salt" None None in
  let u := @User.init Reference.hasher cfg (Role.insert_roles []) kw in
  User.kw_role kw = None
  ∧ User.kw_email kw = ADMIN_ADDRESS cfg
  ∧ truthy (User.is_admin u) = true.
Proof.
  intros cfg kw u.
  split; [reflexivity|]. split; [reflexivity|].
  exact (proj2 (@init_admin_after_seeding Reference.hasher cfg [] kw
                  eq_refl eq_refl)).
Defined.

(** The theorem at a table that holds a stale [user] row and a role of
    another name. *)
Lemma init_default_after_seeding_witness :
  let table := [Role.Build "guest" false 1; Role.Build "user" false 31] in
  let kw := User.Build_kwargs (Some "bob") (Some "bob@example.com")
              (Some "xyz") "salt" None None in
  let u := @User.init Reference.hasher Reference.cfg (Role.insert_roles table) kw in
  NoDup (Role.name <$> table)
  ∧ User.kw_email kw ≠ ADMIN_ADDRESS Reference.cfg
  ∧ User.role u = Some (Role.Build "user" true 3)
  ∧ truthy (User.can u Permission.WRITE) = false.
Proof.
  intros table kw u.
  assert (Hnd : NoDup (Role.name <$> table))
    by (apply (bool_decide_unpack _); vm_compute; exact I).
  assert (Hdef : ∀ r, r ∈ table → Role.default r = true →
                      Role.name r ∈ Role.roles.*1).
  { intros r Hr Hd.
    repeat (apply elem_of_cons in Hr as [->|Hr]; [discriminate Hd|]).
    by apply elem_of_nil in Hr. }
  assert (Hne : User.kw_email kw ≠ ADMIN_ADDRESS Reference.cfg)
    by discriminate.
  destruct (@init_default_after_seeding Reference.hasher Reference.cfg
              table kw Hnd Hdef eq_refl Hne) as (Hrole & _ & _ & Hw & _).
  split; [exact Hnd|]. split; [exact Hne|]. split; [exact Hrole|exact Hw].
Defined.

(** ** More on tokens *)

Section tokens_more.
Context `{Serializer}.

(** X10. An auth token comes back as the stored user: for a user with
    primary key [i] whose row is in the table, [verify_auth_token] on the
    token of [generate_auth_token] returns that row until the expiry has
    passed and [None] afterwards; the token of an object that has no
    primary key yet identifies nobody. *)
Theorem auth_token_round_trip
    (cfg : Config) (get_other : json → result (option User.t))
    (table : gmap Z User.t) (u v row : User.t)
    (i expiration issued now : Z) :
  0 ≤ now → User.id u = Some i → table !! i = Some row → User.id v = None →
  (now ≤ issued + expiration →
     User.verify_auth_token cfg get_other table
       (User.generate_auth_token cfg u expiration issued) now
     = Returned (Some row))
  ∧ (issued + expiration < now →
       User.verify_auth_token cfg get_other table
         (User.generate_auth_token cfg u expiration issued) now
       = Returned None)
  ∧ User.verify_auth_token cfg get_other table
      (User.generate_auth_token cfg v expiration issued) now
    = Returned None.
Proof.
  intros Hnow Hid Hrow Hv. split_and!.
  - intros Hlive. rewrite (verify_auth_token_issued _ _ _ _ i) by done.
    by rewrite bool_decide_true, Hrow.
  - intros Hexp. rewrite (verify_auth_token_issued _ _ _ _ i) by done.
    by rewrite bool_decide_false by lia.
  - unfold User.verify_auth_token, User.generate_auth_token.
    rewrite loads_dumps, Hv by done. by case_bool_decide.
Qed.

(** X11. A token whose payload has no [confirm] member, such as an auth
    token, never activates a user that has a primary key; it does activate,
    while it is live, an object that has none, because [data.get] and
    [self.id] are then both [None]. *)
Theorem activate_auth_token
    (cfg : Config) (u v : User.t) (expiration issued now : Z) :
  0 ≤ now →
  (is_Some (User.id u) →
     User.activate cfg u (User.generate_auth_token cfg v expiration issued) now
     = Returned (false, u))
  ∧ (User.id u = None → now ≤ issued + expiration →
       User.activate cfg u (User.generate_auth_token cfg v expiration issued) now
       = Returned (true, User.set_active u true)).
Proof.
  intros Hnow. unfold User.activate, User.generate_auth_token.
  rewrite loads_dumps by done. split.
  - intros [i Hi]. case_bool_decide; [|done]. simpl. by rewrite Hi.
  - intros Hi Hlive. rewrite bool_decide_true by done. simpl. by rewrite Hi.
Qed.


End tokens_more.

(** The theorem at the reference serializer: user [1] is stored, the token
    is ten seconds old; the second user has no key yet. *)
Lemma auth_token_round_trip_witness :
  let u := Reference.user 1 in
  let v := User.set_id u None in
  let table : gmap Z User.t := <[1 := User.columns u]> ∅ in
  (0 ≤ 20) ∧ User.id u = Some 1 ∧ table !! 1 = Some (User.columns u)
  ∧ User.id v = None
  ∧ @User.verify_auth_token Reference.serializer Reference.cfg
      Reference.get_other table
      (@User.generate_auth_token Reference.serializer Reference.cfg u 3600 10)
      20
    = Returned (Some (User.columns u)).
Proof.
  intros u v table.
  assert (Hrow : table !! 1 = Some (User.columns u))
    by apply lookup_insert_eq.
  split; [lia|]. split; [reflexivity|]. split; [exact Hrow|].
  split; [reflexivity|].
  refine (proj1 (@auth_token_round_trip Reference.serializer Reference.cfg
                   Reference.get_other table u v (User.columns u)
                   1 3600 10 20 _ eq_refl Hrow eq_refl) _); lia.
Defined.

(** The theorem at the reference serializer: the auth token of user [2]
    handed to [activate] of the stored user [1]. *)
Lemma activate_auth_token_witness :
  let u := Reference.user 1 in
  (0 ≤ 20) ∧ is_Some (User.id u)
  ∧ @User.activate Reference.serializer Reference.cfg u
      (@User.generate_auth_token Reference.serializer Reference.cfg
         (Reference.user 2) 3600 10) 20
    = Returned (false, u).
Proof.
  intros u.
  assert (Hid : is_Some (User.id u)) by (exists 1; reflexivity).
  split; [lia|]. split; [exact Hid|].
  refine (proj1 (@activate_auth_token Reference.serializer Reference.cfg
                   u (Reference.user 2) 3600 10 20 _) Hid); lia.
Defined.


(** ** More on comments *)

Section comments_more.
Context `{Bleach}.

Lemma last_cons {A : Type} (a d : A) (l : list A) :
  List.last (a :: l) d = List.last l a.
Proof.
  revert a d. induction l as [|b l IH]; intros a d; [done|].
  change (List.last (a :: b :: l) d) with (List.last (b :: l) d).
  by rewrite (IH b d), (IH b a).
Qed.

Lemma assign_all_body (c : Comment.t) (edits : list (string * datetime))
    (v : string) :
  Comment.body c = Some v → Comment.body_html c = Some (Comment.render v) →
  Comment.body (Comment.assign_all c edits) = Some (List.last (edits.*1) v)
  ∧ Comment.body_html (Comment.assign_all c edits)
    = Some (Comment.render (List.last (edits.*1) v)).
Proof.
  revert c v. induction edits as [|[w t] edits IH]; intros c v Hb Hh; [done|].
  change (Comment.assign_all c ((w, t) :: edits))
    with (Comment.assign_all (Comment.assign_body c w t) edits).
  rewrite fmap_cons, last_cons. by apply IH.
Qed.

Lemma assign_all_keys (c : Comment.t) (edits : list (string * datetime)) :
  Comment.id (Comment.assign_all c edits) = Comment.id c
  ∧ Comment.post_id (Comment.assign_all c edits) = Comment.post_id c
  ∧ Comment.author_id (Comment.assign_all c edits) = Comment.author_id c
  ∧ Comment.parent_id (Comment.assign_all c edits) = Comment.parent_id c
  ∧ Comment.disabled (Comment.assign_all c edits) = Comment.disabled c
  ∧ Comment.timestamp (Comment.assign_all c edits) = Comment.timestamp c.
Proof.
  revert c. induction edits as [|[w t] edits IH]; intros c; [done|].
  change (Comment.assign_all c ((w, t) :: edits))
    with (Comment.assign_all (Comment.assign_body c w t) edits).
  destruct (IH (Comment.assign_body c w t)) as (-> & -> & -> & -> & -> & ->).
  unfold Comment.assign_body, Comment.on_change_body.
  by destruct (Comment.edit_time c).
Qed.

(** X13. The stored HTML never falls behind the body: after the
    constructor and any run of assignments to [body], [body] is the value
    assigned last and [body_html] is the rendering of exactly that value;
    the post, the author, the parent and the [disabled] flag are as the
    constructor set them. *)
Theorem body_html_follows_body
    (value : string) (post author parent : option Z) (created : datetime)
    (edits : list (string * datetime)) :
  let c := Comment.assign_all
             (Comment.init value post author parent created) edits in
  let final := List.last (edits.*1) value in
  Comment.body c = Some final
  ∧ Comment.body_html c = Some (Comment.render final)
  ∧ Comment.post_id c = post
  ∧ Comment.author_id c = author
  ∧ Comment.parent_id c = parent
  ∧ Comment.disabled c = false.
Proof.
  intros c final. subst c final.
  destruct (assign_all_body (Comment.init value post author parent created)
              edits value eq_refl eq_refl) as [-> ->].
  destruct (assign_all_keys (Comment.init value post author parent created)
              edits) as (_ & -> & -> & -> & -> & _).
  done.
Qed.

End comments_more.

(** ** The text pipeline of [on_change_body] *)

Section text.

Lemma contains_app (c : ascii) (a b : string) :
  contains c (a +:+ b) = contains c a || contains c b.
Proof.
  induction a as [|x a IH]; simpl; [done|]. by rewrite IH, orb_assoc.
Qed.

(** One step of the substitution. *)
Lemma sub_newlines_cons (repl : string) (c : ascii) (s : string) :
  sub_newlines repl (String c s)
  = if bool_decide (c = newline)
    then match s with
         | String c' _ =>
             if bool_decide (c' = newline) then sub_newlines repl s
             else repl +:+ sub_newlines repl s
         | EmptyString => repl
         end
    else String c (sub_newlines repl s).
Proof. reflexivity. Qed.

Lemma sub_newlines_clean (repl s : string) :
  contains newline repl = false →
  contains newline (sub_newlines repl s) = false.
Proof.
  intros Hrepl. induction s as [|c s IH]; [done|].
  rewrite sub_newlines_cons. case_bool_decide as Hc.
  - destruct s as [|c' s']; [done|].
    case_bool_decide; [done|]. by rewrite contains_app, Hrepl, IH.
  - simpl. by rewrite bool_decide_false, IH.
Qed.

Lemma sub_newlines_id (repl s : string) :
  contains newline s = false → sub_newlines repl s = s.
Proof.
  induction s as [|c s IH]; [done|]. simpl contains.
  intros [Hc Hs]%orb_false_iff. rewrite sub_newlines_cons, Hc.
  by rewrite IH.
Qed.

Lemma lstrip_all_space (ws : string) :
  all_space ws = true → lstrip ws = EmptyString.
Proof.
  induction ws as [|c ws IH]; simpl; [done|].
  intros [Hc Hws]%andb_true_iff. rewrite Hc. auto.
Qed.

Lemma rstrip_all_space (ws : string) :
  all_space ws = true → rstrip ws = EmptyString.
Proof.
  induction ws as [|c ws IH]; simpl; [done|].
  intros [Hc Hws]%andb_true_iff. by rewrite IH, Hc.
Qed.

Lemma lstrip_space_app (ws s : string) :
  all_space ws = true → lstrip (ws +:+ s) = lstrip s.
Proof.
  induction ws as [|c ws IH]; simpl; [done|].
  intros [Hc Hws]%andb_true_iff. rewrite Hc. auto.
Qed.

Lemma rstrip_app_space (s ws : string) :
  all_space ws = true → rstrip (s +:+ ws) = rstrip s.
Proof.
  intros Hws. induction s as [|c s IH]; simpl.
  - by apply rstrip_all_space.
  - by rewrite IH.
Qed.

Lemma strip_app_space (s ws : string) :
  all_space ws = true → strip (s +:+ ws) = strip s.
Proof.
  intros Hws. unfold strip. induction s as [|c s IH]; simpl.
  - by rewrite lstrip_all_space.
  - destruct (isspace c); [done|].
    by apply (rstrip_app_space (String c s)).
Qed.

End text.

Section rendering.
Context `{Bleach}.

(** X14. The text that [on_change_body] hands to [bleach.linkify] never
    holds a newline, whatever [bleach.clean] returned; when the cleaned text
    has no newline the substitution leaves it as it is. *)
Theorem render_no_newline (value : string) :
  let text := sub_newlines "</p><p>" (clean (strip value)) in
  Comment.render value = "<p>" +:+ linkify text +:+ "</p>"
  ∧ contains newline text = false
  ∧ (contains newline (clean (strip value)) = false →
     text = clean (strip value)).
Proof.
  intros text. split_and!.
  - done.
  - by apply sub_newlines_clean.
  - apply sub_newlines_id.
Qed.

(** X15. Whitespace around the body does not reach the HTML: a body with
    whitespace before and after it renders like the body itself, and a body
    of whitespace only renders like the empty body.  (Whitespace is the
    ASCII whitespace of [isspace].) *)
Theorem render_ignores_outer_space (ws value ws' : string) :
  all_space ws = true → all_space ws' = true →
  strip (ws +:+ (value +:+ ws')) = strip value
  ∧ Comment.render (ws +:+ (value +:+ ws')) = Comment.render value
  ∧ Comment.render ws = Comment.render "".
Proof.
  intros Hws Hws'.
  assert (Hs : strip (ws +:+ (value +:+ ws')) = strip value).
  { unfold strip at 1. rewrite lstrip_space_app by done.
    by apply strip_app_space. }
  split_and!; [done|..]; unfold Comment.render.
  - by rewrite Hs.
  - unfold strip. by rewrite lstrip_all_space.
Qed.

End rendering.

(** The theorem at a body between a newline and two spaces. *)
Lemma render_ignores_outer_space_witness :
  let ws := String newline " " in
  all_space ws = true ∧ all_space "  " = true
  ∧ @Comment.render Reference.bleach (ws +:+ ("a b" +:+ "  ")) = "<p>a b</p>".
Proof.
  intros ws. split; [reflexivity|]. split; [reflexivity|].
  exact (proj1 (proj2 (@render_ignores_outer_space Reference.bleach
                         ws "a b" "  " eq_refl eq_refl))).
Defined.

(** ** [config.py] *)

Section settings.

(** X16. The body of [class Config] binds its attributes exactly when the
    environment has [SECRET_KEY] and a [MAIL_PORT] that [int] accepts.  A
    missing [SECRET_KEY] raises [KeyError] whatever else is set; with the
    key present a missing [MAIL_PORT] raises [TypeError] and one that is not
    a number raises [ValueError].  Every other variable may be missing and
    is then [None]: in particular [ADMIN_ADDRESS]. *)
Theorem Config_body_outcome
    (int_of_string : string → option Z) (environ : gmap string string) :
  (environ !! "SECRET_KEY" = None →
     Settings.Config_body int_of_string environ
     = Settings.RaisedKeyError "SECRET_KEY")
  ∧ (is_Some (environ !! "SECRET_KEY") → environ !! "MAIL_PORT" = None →
       Settings.Config_body int_of_string environ = Settings.RaisedTypeError)
  ∧ (∀ port, is_Some (environ !! "SECRET_KEY") →
       environ !! "MAIL_PORT" = Some port → int_of_string port = None →
       Settings.Config_body int_of_string environ = Settings.RaisedValueError)
  ∧ (∀ attrs, Settings.Config_body int_of_string environ = Settings.Bound attrs
       ↔ ∃ key port n,
           environ !! "SECRET_KEY" = Some key
           ∧ environ !! "MAIL_PORT" = Some port
           ∧ int_of_string port = Some n
           ∧ attrs = Settings.Build_env_attrs key
                       (environ !! "DB_RECORD_QUERIES")
                       (environ !! "MAIL_SERVER") n
                       (environ !! "MAIL_USERNAME")
                       (environ !! "MAIL_PASSWORD")
                       (environ !! "MAIL_SENDER")
                       (environ !! "ADMIN_ADDRESS")).
Proof.
  unfold Settings.Config_body. split_and!.
  - by intros ->.
  - by intros [key ->] ->.
  - by intros port [key ->] -> ->.
  - intros attrs.
    destruct (environ !! "SECRET_KEY") as [key|].
    2:{ split; [done|]. by intros (? & ? & ? & [=] & _). }
    destruct (environ !! "MAIL_PORT") as [port|].
    2:{ split; [done|]. by intros (? & ? & ? & _ & [=] & _). }
    destruct (int_of_string port) as [n|] eqn:Hn.
    + split.
      * intros [= <-]. by exists key, port, n.
      * intros (key' & port' & n' & [= <-] & [= <-] & Hn' & ->).
        rewrite Hn in Hn'. by injection Hn' as <-.
    + split; [done|].
      intros (key' & port' & n' & _ & [= <-] & Hn' & _). congruence.
Qed.

(** X17. The database address of the development and testing
    configurations is the environment variable when it is set to a
    non-empty string; when the variable is missing or empty it is the
    SQLite default (a file [dev.sqlite] beside [config.py], or the
    in-memory database). *)
Theorem DATABASE_URI_fallback
    (basedir : string) (environ : gmap string string) :
  (∀ c s, environ !! "DEV_DATABASE_URL" = Some (String c s) →
     Settings.Development_DATABASE_URI basedir environ = String c s)
  ∧ (environ !! "DEV_DATABASE_URL" = None
     ∨ environ !! "DEV_DATABASE_URL" = Some "" →
     Settings.Development_DATABASE_URI basedir environ
     = "sqlite:///" +:+ Settings.path_join basedir "dev.sqlite")
  ∧ (∀ c s, environ !! "TEST_DATABASE_URL" = Some (String c s) →
     Settings.Testing_DATABASE_URI environ = String c s)
  ∧ (environ !! "TEST_DATABASE_URL" = None
     ∨ environ !! "TEST_DATABASE_URL" = Some "" →
     Settings.Testing_DATABASE_URI environ = "sqlite://").
Proof.
  unfold Settings.Development_DATABASE_URI, Settings.Testing_DATABASE_URI.
  split_and!.
  - by intros c s ->.
  - by intros [-> | ->].
  - by intros c s ->.
  - by intros [-> | ->].
Qed.

(** X18. [ProductionConfig.init_app] asks the mail handler for TLS exactly
    when it passes credentials, and it passes credentials exactly when
    [MAIL_USERNAME] is set (with the password, which may be [None]);
    without a user name the handler gets neither, although [MAIL_USE_TLS]
    is true.  The handler always has one recipient, the administrator
    address, also when that is [None]. *)
Theorem Production_init_app_credentials (cls : Settings.env_attrs) :
  let args := Settings.Production_init_app cls in
  (is_Some (Settings.secure args) ↔ is_Some (Settings.credentials args))
  ∧ (is_Some (Settings.credentials args)
     ↔ is_Some (Settings.MAIL_USERNAME cls))
  ∧ (∀ username, Settings.MAIL_USERNAME cls = Some username →
       Settings.credentials args = Some (username, Settings.MAIL_PASSWORD cls))
  ∧ Settings.toaddrs args = [Settings.ADMIN_ADDRESS cls].
Proof.
  unfold Settings.Production_init_app.
  destruct (Settings.MAIL_USERNAME cls) as [username|]; simpl.
  - split_and!; [split; eauto..| |done].
    by intros ? [= <-].
  - split_and!; [split; intros [? [=]]..|done|done].
Qed.

End settings.

(** ** Tokens with other payloads *)

Section payloads.
Context `{Serializer}.


End payloads.

